(** * Stepper pulse sequencing on the parallel port

    A shallow embedding of [parallel_port.py], [step_motor.py] and
    [thermo_jarrell_ash.py], and the properties of the pulse sequencer
    and of the monochromator controller built on it.

    Conventions of the embedding.
    - Python integers are [Z].  The step count handed to a loop and the
      pulse width are exact rationals [Q]: every finite float is one, and
      Python compares an integer with a finite float exactly, so the loop
      test [step_number < number_of_steps] is the comparison in [Q].
    - The wavelengths and spectral steps handed to the controller are
      Python numbers, an [int] or a [float]; arithmetic on floats is that
      of binary64, on the kernel's primitive floats.
    - A method is a function from the object and the chronological list of
      hardware events so far to an outcome, the object afterwards and the
      events afterwards.  An exception leaves the object and the events as
      they were when it was raised.
    - [while] loops carry a fuel argument; running out of fuel with the loop
      test still true is the outcome [Diverge], distinct from every Python
      exception.
    - The loading of [inpout32.dll] in [ParallelPort.__init__] is assumed to
      succeed; the call [self.setpin_command(address, value)] is the event
      [Out32 address value]. *)

From Stdlib Require Import ZArith QArith Qround Qabs List String Bool Lia.
From Stdlib Require Import Floats.
Import ListNotations.

Local Open Scope Z_scope.

(** ** Outcomes, events and the method monad *)

Inductive exn : Type :=
| AttributeError (name : string)   (* attribute lookup failed *)
| ValueError_not_in_list           (* list.index(x): x not in list *)
| ValueError_negative_sleep        (* time.sleep(t) with t < 0 *)
| IndexError                       (* list index out of range *)
| OverflowError.                   (* int too large to convert to float *)

Inductive outcome (A : Type) : Type :=
| Ok (a : A)
| Raise (e : exn)
| Diverge.

Arguments Ok {A} a.
Arguments Raise {A} e.
Arguments Diverge {A}.

Inductive event : Type :=
| Out32 (address value : Z)        (* windll.inpout32.Out32(address, value) *)
| Sleep (seconds : Q).             (* time.sleep(seconds) *)

Definition trace := list event.

(** A method of an object of type [O]. *)
Definition M (O A : Type) : Type := O * trace -> outcome A * (O * trace).

Definition ret {O A} (a : A) : M O A := fun s => (Ok a, s).

Definition bind {O A B} (c : M O A) (k : A -> M O B) : M O B :=
  fun s =>
    match c s with
    | (Ok a, s') => k a s'
    | (Raise e, s') => (Raise e, s')
    | (Diverge, s') => (Diverge, s')
    end.

Definition raise {O A} (e : exn) : M O A := fun s => (Raise e, s).

Definition diverge {O A} : M O A := fun s => (Diverge, s).

Definition emit {O} (e : event) : M O unit :=
  fun '(self, tr) => (Ok tt, (self, tr ++ [e])).

Definition get_self {O} : M O O := fun '(self, tr) => (Ok self, (self, tr)).

Definition set_self {O} (self' : O) : M O unit :=
  fun '(_, tr) => (Ok tt, (self', tr)).

Definition lift_outcome {O A} (r : outcome A) : M O A := fun s => (r, s).

Declare Scope py_scope.
Delimit Scope py_scope with py.
Notation "x <- c ;; k" := (bind c (fun x => k))
  (at level 61, c at next level, right associativity) : py_scope.
Notation "c ;; k" := (bind c (fun _ => k))
  (at level 61, right associativity) : py_scope.

Local Open Scope py_scope.

(** ** Python list primitives *)

(** [l.index(x)]: position of the first element equal to [x]. *)
Fixpoint index (l : list Z) (x : Z) : option nat :=
  match l with
  | [] => None
  | y :: l' => if y =? x then Some O else option_map S (index l' x)
  end.

(** [l[i]]: a negative index counts from the end. *)
Definition getitem (l : list Z) (i : Z) : outcome Z :=
  let len := Z.of_nat (List.length l) in
  let j := if i <? 0 then i + len else i in
  if (0 <=? j) && (j <? len) then
    match nth_error l (Z.to_nat j) with
    | Some v => Ok v
    | None => Raise IndexError
    end
  else Raise IndexError.

(** [x < y] on numbers. *)
Definition Qlt_bool (x y : Q) : bool := negb (Qle_bool y x).

(** ** parallel_port.py *)

Module ParallelPort.

Definition pin_set_0x378 : list Z := [2; 3; 4; 5; 6; 7; 8; 9].
Definition pin_set_0x37f : list Z := [1; 14; 16; 17].
Definition dec_0x378 : list Z := [1; 2; 4; 8; 16; 32; 64; 128].
Definition dec_0x37f : list Z := [10; 9; 15; 13].

Definition addr_0x378 : Z := 888.
Definition addr_0x37f : Z := 895.

(** The instance attribute [address]; [setpin_command] is [Out32]. *)
Record t : Type := { address : Z }.

Definition __init__ (address : Z) : outcome t := Ok {| address := address |}.

Section Methods.
(** The methods are inherited: they run on any object that has an
    [address]. *)
Context {O : Type} (address_of : O -> Z).

Definition setpin_command (address value : Z) : M O unit :=
  emit (Out32 address value).

Definition all_pin_low : M O unit :=
  self <- get_self ;;
  if address_of self =? addr_0x378 then setpin_command (address_of self) 0
  else if address_of self =? addr_0x37f then setpin_command (address_of self) 11
  else ret tt.

Definition all_pin_high : M O unit :=
  self <- get_self ;;
  if address_of self =? addr_0x378 then setpin_command (address_of self) 255
  else if address_of self =? addr_0x37f then setpin_command (address_of self) 4
  else ret tt.

(** [pin_set.index(pin_number)] followed by [dec[dec_index]]. *)
Definition lookup_dec (pin_set dec : list Z) (pin_number : Z) : outcome Z :=
  match index pin_set pin_number with
  | None => Raise ValueError_not_in_list
  | Some dec_index => getitem dec (Z.of_nat dec_index)
  end.

Definition pin (pin_number : Z) : M O unit :=
  self <- get_self ;;
  if address_of self =? addr_0x378 then
    H <- lift_outcome (lookup_dec pin_set_0x378 dec_0x378 pin_number) ;;
    setpin_command (address_of self) H
  else if address_of self =? addr_0x37f then
    H <- lift_outcome (lookup_dec pin_set_0x37f dec_0x37f pin_number) ;;
    setpin_command (address_of self) H
  else ret tt.
End Methods.

End ParallelPort.

(** ** step_motor.py *)

Module StepMotor.

Record t : Type := {
  address : Z;                  (* set by ParallelPort.__init__ *)
  step_time : Q;
  parallel_pin_set : list Z
}.

Definition __init__ (step_time : Q) (parallel_pin_set : list Z)
    (parallel_address : Z) : outcome t :=
  match ParallelPort.__init__ parallel_address with
  | Ok p => Ok {| address := ParallelPort.address p;
                  step_time := step_time;
                  parallel_pin_set := parallel_pin_set |}
  | Raise e => Raise e
  | Diverge => Diverge
  end.

(** [time.sleep] refuses a negative length. *)
Definition sleep (seconds : Q) : M t unit :=
  if Qlt_bool seconds 0 then raise ValueError_negative_sleep
  else emit (Sleep seconds).

Definition step (i : Z) : M t unit :=
  ParallelPort.pin address i ;;
  self <- get_self ;;
  sleep (step_time self).

(** The body of [while step_number < number_of_steps] in [clockwise],
    with the loop variables as arguments. *)
Fixpoint clockwise_loop (fuel : nat) (number_of_steps : Q)
    (reverse_pin_set : list Z) (step_number reverse_pin_index pin : Z)
    : M t unit :=
  if Qlt_bool (inject_Z step_number) number_of_steps then
    match fuel with
    | O => diverge
    | S fuel' =>
        step pin ;;
        let step_number := step_number + 1 in
        let reverse_pin_index := reverse_pin_index + 1 in
        if reverse_pin_index <=? 3 then
          pin <- lift_outcome (getitem reverse_pin_set reverse_pin_index) ;;
          clockwise_loop fuel' number_of_steps reverse_pin_set
            step_number reverse_pin_index pin
        else
          let reverse_pin_index := 0 in
          pin <- lift_outcome (getitem reverse_pin_set reverse_pin_index) ;;
          clockwise_loop fuel' number_of_steps reverse_pin_set
            step_number reverse_pin_index pin
    end
  else ret tt.

Definition clockwise (fuel : nat) (number_of_steps : Q) : M t unit :=
  let step_number := 0 in
  self <- get_self ;;
  let reverse_pin_set := rev (parallel_pin_set self) in
  let reverse_pin_index := 0 in
  pin <- lift_outcome (getitem reverse_pin_set reverse_pin_index) ;;
  clockwise_loop fuel number_of_steps reverse_pin_set
    step_number reverse_pin_index pin.

Fixpoint counterclockwise_loop (fuel : nat) (number_of_steps : Q)
    (pin_set : list Z) (step_number pin_index pin : Z) : M t unit :=
  if Qlt_bool (inject_Z step_number) number_of_steps then
    match fuel with
    | O => diverge
    | S fuel' =>
        step pin ;;
        let step_number := step_number + 1 in
        let pin_index := pin_index + 1 in
        if pin_index <=? 3 then
          pin <- lift_outcome (getitem pin_set pin_index) ;;
          counterclockwise_loop fuel' number_of_steps pin_set
            step_number pin_index pin
        else
          let pin_index := 0 in
          pin <- lift_outcome (getitem pin_set pin_index) ;;
          counterclockwise_loop fuel' number_of_steps pin_set
            step_number pin_index pin
    end
  else ret tt.

Definition counterclockwise (fuel : nat) (number_of_steps : Q) : M t unit :=
  let step_number := 0 in
  self <- get_self ;;
  let pin_set := parallel_pin_set self in
  let pin_index := 0 in
  pin <- lift_outcome (getitem pin_set pin_index) ;;
  counterclockwise_loop fuel number_of_steps pin_set
    step_number pin_index pin.

(** Attribute lookup for a rotation method called with one argument.
    [clockwise] and [counterclockwise] are the only rotation methods that
    [StepMotor] or [ParallelPort] define; a name that neither the instance
    nor the two classes define raises [AttributeError]. *)
Definition rotation (name : string) : option (nat -> Q -> M t unit) :=
  if String.eqb name "clockwise" then Some clockwise
  else if String.eqb name "counterclockwise" then Some counterclockwise
  else None.

Definition call_rotation (name : string) (fuel : nat) (arg : Q) : M t unit :=
  match rotation name with
  | Some method => method fuel arg
  | None => raise (AttributeError name)
  end.

End StepMotor.

(** ** Python numbers *)

(** The numbers handed to the controller: an [int] or a [float]
    (binary64). *)
Inductive number : Type :=
| Int (z : Z)
| Float (f : PrimFloat.float).

Coercion Int : Z >-> number.

(** [float(z)] for an [int]: the nearest binary64, ties to even;
    [OverflowError] past the largest float. *)
Definition float_of_int (z : Z) : outcome PrimFloat.float :=
  match SpecFloat.binary_normalize FloatOps.prec FloatOps.emax z 0 false with
  | SpecFloat.S754_infinity _ => Raise OverflowError
  | x => Ok (FloatOps.SF2Prim x)
  end.

(** A binary operator on numbers: on two [int]s it is exact; with a
    [float] on either side the [int] on the other is converted first. *)
Definition arithmetic (op_int : Z -> Z -> Z)
    (op_float : PrimFloat.float -> PrimFloat.float -> PrimFloat.float)
    (x y : number) : outcome number :=
  match x, y with
  | Int a, Int b => Ok (Int (op_int a b))
  | Float a, Float b => Ok (Float (op_float a b))
  | Int a, Float b =>
      match float_of_int a with
      | Ok a' => Ok (Float (op_float a' b))
      | Raise e => Raise e
      | Diverge => Diverge
      end
  | Float a, Int b =>
      match float_of_int b with
      | Ok b' => Ok (Float (op_float a b'))
      | Raise e => Raise e
      | Diverge => Diverge
      end
  end.

(** [x - y] and [x * y] *)
Definition number_sub : number -> number -> outcome number :=
  arithmetic Z.sub PrimFloat.sub.

Definition number_mul : number -> number -> outcome number :=
  arithmetic Z.mul PrimFloat.mul.

(** [abs(x)] *)
Definition number_abs (x : number) : number :=
  match x with
  | Int z => Int (Z.abs z)
  | Float f => Float (PrimFloat.abs f)
  end.

(** [x < 0], [x > 0] and [x == 0]: each is False on a NaN. *)
Definition lt_zero (x : number) : bool :=
  match x with
  | Int z => z <? 0
  | Float f => PrimFloat.ltb f PrimFloat.zero
  end.

Definition gt_zero (x : number) : bool :=
  match x with
  | Int z => 0 <? z
  | Float f => PrimFloat.ltb PrimFloat.zero f
  end.

Definition eq_zero (x : number) : bool :=
  match x with
  | Int z => z =? 0
  | Float f => PrimFloat.eqb f PrimFloat.zero
  end.

(** The rational [(-1)^s * m * 2^e]. *)
Definition finite_value (s : bool) (m : positive) (e : Z) : Q :=
  let sm := if s then Z.neg m else Z.pos m in
  match e with
  | Z0 => inject_Z sm
  | Z.pos p => inject_Z (sm * 2 ^ Z.pos p)
  | Z.neg p => Qmake sm (2 ^ p)
  end.

(** The rational that a finite float is. *)
Definition float_value (f : PrimFloat.float) : option Q :=
  match FloatOps.Prim2SF f with
  | SpecFloat.S754_zero _ => Some 0%Q
  | SpecFloat.S754_finite s m e => Some (finite_value s m e)
  | SpecFloat.S754_infinity _ => None
  | SpecFloat.S754_nan => None
  end.

(** The exact value of a number, when it is finite. *)
Definition value (x : number) : option Q :=
  match x with
  | Int z => Some (inject_Z z)
  | Float f => float_value f
  end.

(** A number as the bound of a loop [while step_number < x] that is run
    with [fuel].  A finite number is its exact value.  The test never
    fails against [+inf]: the loop is then observed for as long as the
    fuel lasts, where the test is that of any bound above the fuel.
    Against [-inf] and against a NaN the test fails at once, as it does
    against 0. *)
Definition loop_bound (fuel : nat) (x : number) : Q :=
  match value x with
  | Some q => q
  | None => if gt_zero x then inject_Z (Z.of_nat fuel) + 1 else 0
  end.

(** ** thermo_jarrell_ash.py *)

Module ThermoJarrellAsh.

(** The entries of a device dictionary that the code reads:
    ['step factor'], ['pin sequence'] and ['pulse width'].  The other
    entries (brand, date, model, ...) are strings that no method reads. *)
Record device : Type := {
  step_factor_entry : Z;
  pin_sequence : list Z;
  pulse_width : Q
}.

Definition sn_6902 : device :=
  {| step_factor_entry := 24;
     pin_sequence := [6; 7; 8; 9];
     pulse_width := 4 # 1000 |}.

Definition sn_34575 : device :=
  {| step_factor_entry := 120;
     pin_sequence := [3; 2; 4; 5];
     pulse_width := 4 # 1000 |}.

(** Instance attributes; [step_factor] and [excitation_motor] do not
    exist until [setup_step_motor] assigns them. *)
Record t : Type := {
  serial_number : Z;
  step_factor : option Z;
  excitation_motor : option StepMotor.t
}.

Definition __init__ (serial_number : Z) : outcome t :=
  Ok {| serial_number := serial_number;
        step_factor := None;
        excitation_motor := None |}.

Definition set_step_factor (v : Z) : M t unit :=
  self <- get_self ;;
  set_self {| serial_number := serial_number self;
              step_factor := Some v;
              excitation_motor := excitation_motor self |}.

Definition set_excitation_motor (m : StepMotor.t) : M t unit :=
  self <- get_self ;;
  set_self {| serial_number := serial_number self;
              step_factor := step_factor self;
              excitation_motor := Some m |}.

(** [self.step_factor] *)
Definition get_step_factor : M t Z :=
  self <- get_self ;;
  match step_factor self with
  | Some v => ret v
  | None => raise (AttributeError "step_factor")
  end.

(** [self.excitation_motor.<method>(...)]: the motor is an object of its
    own that the controller refers to, so what the method does to it is
    seen through [self.excitation_motor] afterwards. *)
Definition on_excitation_motor {A} (method : M StepMotor.t A) : M t A :=
  fun '(self, tr) =>
    match excitation_motor self with
    | None => (Raise (AttributeError "excitation_motor"), (self, tr))
    | Some m =>
        let '(r, (m', tr')) := method (m, tr) in
        (r, ({| serial_number := serial_number self;
                step_factor := step_factor self;
                excitation_motor := Some m' |}, tr'))
    end.

(** The two assignments that both branches of [setup_step_motor] make,
    from the device dictionary of the branch. *)
Definition setup_from (d : device) : M t unit :=
  set_step_factor (step_factor_entry d) ;;
  m <- lift_outcome
         (StepMotor.__init__ (pulse_width d) (pin_sequence d)
            ParallelPort.addr_0x378) ;;
  set_excitation_motor m.

Definition setup_step_motor : M t unit :=
  self <- get_self ;;
  if serial_number self =? 6902 then setup_from sn_6902
  else if serial_number self =? 34575 then setup_from sn_34575
  else ret tt.

Definition backlash (fuel : nat) : M t unit :=
  sf <- get_step_factor ;;
  let backsteps := 5 * sf in
  on_excitation_motor
    (StepMotor.call_rotation "anticlockwise" fuel (inject_Z backsteps)) ;;
  on_excitation_motor
    (StepMotor.call_rotation "clockwise" fuel (inject_Z backsteps)).

Definition calibration (fuel : nat) (display_wl target_wl : number)
    : M t unit :=
  difference <- lift_outcome (number_sub target_wl display_wl) ;;
  sf <- get_step_factor ;;
  cal <- lift_outcome (number_mul difference (Int sf)) ;;
  if lt_zero cal then
    on_excitation_motor
      (StepMotor.call_rotation "anticlockwise" fuel
         (loop_bound fuel (number_abs cal))) ;;
    backlash fuel
  else if gt_zero cal then
    on_excitation_motor
      (StepMotor.call_rotation "clockwise" fuel (loop_bound fuel cal))
  else if eq_zero cal then ret tt
  else ret tt.

Definition start_up (fuel : nat) (display_wl spectral_start : number)
    : M t unit :=
  difference <- lift_outcome (number_sub spectral_start display_wl) ;;
  sf <- get_step_factor ;;
  start <- lift_outcome (number_mul difference (Int sf)) ;;
  if lt_zero start then
    on_excitation_motor
      (StepMotor.call_rotation "anticlockwise" fuel
         (loop_bound fuel (number_abs start))) ;;
    backlash fuel
  else if gt_zero start then
    on_excitation_motor
      (StepMotor.call_rotation "clockwise" fuel (loop_bound fuel start))
  else if eq_zero start then ret tt
  else ret tt.

Definition step_forward (fuel : nat) (spectral_step : number) : M t unit :=
  sf <- get_step_factor ;;
  step <- lift_outcome (number_mul spectral_step (Int sf)) ;;
  on_excitation_motor
    (StepMotor.call_rotation "clockwise" fuel (loop_bound fuel step)).

Definition step_backward (fuel : nat) (spectral_step : number) : M t unit :=
  sf <- get_step_factor ;;
  step <- lift_outcome (number_mul spectral_step (Int sf)) ;;
  on_excitation_motor
    (StepMotor.call_rotation "anticlockwise" fuel (loop_bound fuel step)) ;;
  backlash fuel.

(** [c = ThermoJarrellAsh(serial_number); c.setup_step_motor()] *)
Definition new (serial_number : Z) : outcome t :=
  match __init__ serial_number with
  | Ok c =>
      match setup_step_motor (c, []) with
      | (Ok _, (c', _)) => Ok c'
      | (Raise e, _) => Raise e
      | (Diverge, _) => Diverge
      end
  | Raise e => Raise e
  | Diverge => Diverge
  end.

End ThermoJarrellAsh.

(** ** Observations on traces *)

(** The events a call emits when started on [self] with nothing emitted
    before. *)
Definition emitted {O A} (c : M O A) (self : O) : trace :=
  snd (snd (c (self, []))).

(** The decimal that the port tables give for a pin at an address. *)
Definition decimal (address pin : Z) : option Z :=
  if address =? ParallelPort.addr_0x378 then
    match index ParallelPort.pin_set_0x378 pin with
    | Some i => nth_error ParallelPort.dec_0x378 i
    | None => None
    end
  else if address =? ParallelPort.addr_0x37f then
    match index ParallelPort.pin_set_0x37f pin with
    | Some i => nth_error ParallelPort.dec_0x37f i
    | None => None
    end
  else None.

(** The pin that a written decimal stands for. *)
Definition pin_of (address value : Z) : option Z :=
  if address =? ParallelPort.addr_0x378 then
    match index ParallelPort.dec_0x378 value with
    | Some i => nth_error ParallelPort.pin_set_0x378 i
    | None => None
    end
  else if address =? ParallelPort.addr_0x37f then
    match index ParallelPort.dec_0x37f value with
    | Some i => nth_error ParallelPort.pin_set_0x37f i
    | None => None
    end
  else None.

(** A pin is wired at an address when the port table of the address
    lists it. *)
Definition wired (address pin : Z) : Prop := decimal address pin <> None.

(** One pin activation: the port write and the pulse time held after it. *)
Definition activation (m : StepMotor.t) (pin : Z) : trace :=
  match decimal (StepMotor.address m) pin with
  | Some H => [Out32 (StepMotor.address m) H; Sleep (StepMotor.step_time m)]
  | None => []
  end.

(** The pins activated in a trace, in order. *)
Fixpoint activated (tr : trace) : list Z :=
  match tr with
  | [] => []
  | Out32 a v :: tr' =>
      match pin_of a v with
      | Some p => p :: activated tr'
      | None => activated tr'
      end
  | Sleep _ :: tr' => activated tr'
  end.

(** The number of port writes in a trace. *)
Fixpoint writes (tr : trace) : nat :=
  match tr with
  | [] => O
  | Out32 _ _ :: tr' => S (writes tr')
  | Sleep _ :: tr' => writes tr'
  end.

(** The value a port holds after a trace: the last one written to it. *)
Fixpoint port_register (address : Z) (tr : trace) : option Z :=
  match tr with
  | [] => None
  | Out32 a v :: tr' =>
      match port_register address tr' with
      | Some v' => Some v'
      | None => if a =? address then Some v else None
      end
  | Sleep _ :: tr' => port_register address tr'
  end.

(** [n] elements of [l] cycled with period 4, starting at [l[0]]. *)
Definition cycle (l : list Z) (n : nat) : list Z :=
  map (fun i => nth (i mod 4) l 0) (seq 0 n).

(** A motor whose four winding pins are wired at its port and whose pulse
    width [time.sleep] accepts. *)
Definition well_formed (m : StepMotor.t) : Prop :=
  List.length (StepMotor.parallel_pin_set m) = 4%nat /\
  (forall p, In p (StepMotor.parallel_pin_set m) -> wired (StepMotor.address m) p) /\
  (0 <= StepMotor.step_time m)%Q.

(** The number of times the loop test [step_number < n] holds for
    [step_number = 0, 1, 2, ...]. *)
Definition iterations (n : Q) : nat := Z.to_nat (Z.max 0 (Qceiling n)).

(** [clockwise(n)] followed by [counterclockwise(n)]: the pins of the
    first call and the pins of the second. *)
Definition halves (m : StepMotor.t) (fuel : nat) (n : Z)
    : list Z * list Z :=
  let s1 := snd (StepMotor.clockwise fuel (inject_Z n) (m, [])) in
  let s2 := snd (StepMotor.counterclockwise fuel (inject_Z n) s1) in
  (activated (snd s1),
   activated (skipn (List.length (snd s1)) (snd s2))).

Definition round_trip (m : StepMotor.t) (fuel : nat) (n : Z) : Prop :=
  let '(first, second) := halves m fuel n in
  (forall p, In p first <-> In p second) /\ second = rev first.

(** The pins a port accepts: those of the table of its address; a port at
    another address accepts every pin, and writes nothing. *)
Definition port_accepts (address pin : Z) : Prop :=
  if address =? ParallelPort.addr_0x378 then In pin ParallelPort.pin_set_0x378
  else if address =? ParallelPort.addr_0x37f then In pin ParallelPort.pin_set_0x37f
  else True.

(** The controllers and motors of the two devices. *)
Definition motor_6902 : StepMotor.t :=
  {| StepMotor.address := ParallelPort.addr_0x378;
     StepMotor.step_time := 4 # 1000;
     StepMotor.parallel_pin_set := [6; 7; 8; 9] |}.

Definition controller_6902 : ThermoJarrellAsh.t :=
  {| ThermoJarrellAsh.serial_number := 6902;
     ThermoJarrellAsh.step_factor := Some 24;
     ThermoJarrellAsh.excitation_motor := Some motor_6902 |}.

(** A method leaves the attributes of its object as they were, however
    it ends. *)
Definition frame {O A} (c : M O A) : Prop :=
  forall (self : O) (tr : trace), fst (snd (c (self, tr))) = self.

(** The time slept in a trace, in seconds. *)
Fixpoint slept (tr : trace) : Q :=
  match tr with
  | [] => 0
  | Out32 _ _ :: tr' => slept tr'
  | Sleep t :: tr' => t + slept tr'
  end.

(** A controller on which [setup_step_motor] has assigned the step factor
    [sf] and the motor [m]. *)
Definition set_up (c : ThermoJarrellAsh.t) (sf : Z) (m : StepMotor.t) : Prop :=
  ThermoJarrellAsh.step_factor c = Some sf /\
  ThermoJarrellAsh.excitation_motor c = Some m.

Definition motor_34575 : StepMotor.t :=
  {| StepMotor.address := ParallelPort.addr_0x378;
     StepMotor.step_time := 4 # 1000;
     StepMotor.parallel_pin_set := [3; 2; 4; 5] |}.

Definition controller_34575 : ThermoJarrellAsh.t :=
  {| ThermoJarrellAsh.serial_number := 34575;
     ThermoJarrellAsh.step_factor := Some 120;
     ThermoJarrellAsh.excitation_motor := Some motor_34575 |}.

(** The float literals [0.1], [0.01] and [2.085]: the binary64 nearest to
    each, as Python reads them. *)
Definition float_0_1 : PrimFloat.float := 0x1.999999999999ap-4%float.
Definition float_0_01 : PrimFloat.float := 0x1.47ae147ae147bp-7%float.
Definition float_2_085 : PrimFloat.float := 0x1.0ae147ae147aep+1%float.

(** * Properties *)

(** ** The primitives *)

Lemma Qlt_bool_iff (x y : Q) : Qlt_bool x y = true <-> (x < y)%Q.
Proof.
  unfold Qlt_bool. rewrite negb_true_iff.
  destruct (Qle_bool y x) eqn:E.
  - apply Qle_bool_iff in E. split; [discriminate|].
    intros H. exfalso. exact (Qlt_not_le _ _ H E).
  - split; [intros _|reflexivity].
    apply Qnot_le_lt. intros H. apply Qle_bool_iff in H. congruence.
Qed.

(** The loop test in terms of the ceiling of the bound. *)
Lemma loop_test (k : Z) (n : Q) :
  Qlt_bool (inject_Z k) n = (k <? Qceiling n).
Proof.
  destruct (k <? Qceiling n) eqn:E.
  - apply Z.ltb_lt in E. apply Qlt_bool_iff.
    apply Qle_lt_trans with (inject_Z (Qceiling n - 1)).
    + rewrite <- Zle_Qle. lia.
    + apply Qceiling_lt.
  - apply Z.ltb_ge in E.
    destruct (Qlt_bool (inject_Z k) n) eqn:F; [|reflexivity].
    apply Qlt_bool_iff in F.
    assert (H : (inject_Z k < inject_Z (Qceiling n))%Q)
      by (eapply Qlt_le_trans; [exact F|apply Qle_ceiling]).
    rewrite <- Zlt_Qlt in H. lia.
Qed.

Lemma getitem_nat (l : list Z) (i : nat) :
  getitem l (Z.of_nat i) =
  match nth_error l i with Some v => Ok v | None => Raise IndexError end.
Proof.
  unfold getitem.
  assert (E : (Z.of_nat i <? 0) = false) by (apply Z.ltb_ge; lia).
  rewrite E.
  assert (E0 : (0 <=? Z.of_nat i) = true) by (apply Z.leb_le; lia).
  rewrite E0. cbn [andb].
  destruct (Z.of_nat i <? Z.of_nat (List.length l)) eqn:E1.
  - now rewrite Nat2Z.id.
  - apply Z.ltb_ge in E1.
    assert (H : nth_error l i = None) by (apply nth_error_None; lia).
    now rewrite H.
Qed.

Lemma getitem_nth (l : list Z) (i : nat) :
  (i < List.length l)%nat -> getitem l (Z.of_nat i) = Ok (nth i l 0).
Proof.
  intros H. rewrite getitem_nat.
  now rewrite (nth_error_nth' l 0 H).
Qed.

Lemma index_In (l : list Z) (x : Z) : index l x <> None <-> In x l.
Proof.
  induction l as [|y l IH]; cbn.
  - tauto.
  - destruct (Z.eqb_spec y x) as [->|N].
    + split; [auto|discriminate].
    + destruct (index l x); cbn in *.
      * split; [intros _; right; apply IH; discriminate|discriminate].
      * split; [congruence|]. intros [E|H]; [congruence|]. now apply IH in H.
Qed.

Lemma lookup_dec_decimal (ps dec : list Z) (p : Z) :
  ParallelPort.lookup_dec ps dec p =
  match index ps p with
  | None => Raise ValueError_not_in_list
  | Some i =>
      match nth_error dec i with Some v => Ok v | None => Raise IndexError end
  end.
Proof.
  unfold ParallelPort.lookup_dec. destruct (index ps p); [|reflexivity].
  apply getitem_nat.
Qed.

(** What [pin] does, by the table lookup [decimal]. *)
Lemma pin_wired {O} (address_of : O -> Z) (self : O) (tr : trace) (p H : Z) :
  decimal (address_of self) p = Some H ->
  ParallelPort.pin address_of p (self, tr)
  = (Ok tt, (self, tr ++ [Out32 (address_of self) H])).
Proof.
  unfold decimal, ParallelPort.pin, bind, get_self, lift_outcome,
    ParallelPort.setpin_command, emit.
  destruct (address_of self =? ParallelPort.addr_0x378).
  - rewrite lookup_dec_decimal.
    destruct (index ParallelPort.pin_set_0x378 p); [|discriminate].
    intros E. now rewrite E.
  - destruct (address_of self =? ParallelPort.addr_0x37f); [|discriminate].
    rewrite lookup_dec_decimal.
    destruct (index ParallelPort.pin_set_0x37f p); [|discriminate].
    intros E. now rewrite E.
Qed.

Lemma sleep_ok (m : StepMotor.t) (tr : trace) (t : Q) :
  (0 <= t)%Q -> StepMotor.sleep t (m, tr) = (Ok tt, (m, tr ++ [Sleep t])).
Proof.
  intros H. unfold StepMotor.sleep.
  destruct (Qlt_bool t 0) eqn:E; [|reflexivity].
  apply Qlt_bool_iff in E. exfalso. exact (Qlt_not_le _ _ E H).
Qed.

Lemma step_ok (m : StepMotor.t) (tr : trace) (p : Z) :
  wired (StepMotor.address m) p -> (0 <= StepMotor.step_time m)%Q ->
  StepMotor.step p (m, tr) = (Ok tt, (m, tr ++ activation m p)).
Proof.
  unfold wired, activation. intros W T.
  destruct (decimal (StepMotor.address m) p) as [H|] eqn:E; [|congruence].
  unfold StepMotor.step, bind.
  rewrite (pin_wired StepMotor.address m tr p H E).
  cbn [get_self]. rewrite sleep_ok by assumption.
  now rewrite <- app_assoc.
Qed.

(** ** The two loops *)

(** The loops of [clockwise] and [counterclockwise] are the same code on
    different variable names. *)
Lemma counterclockwise_loop_eq (fuel : nat) (n : Q) (l : list Z)
    (k j p : Z) (s : StepMotor.t * trace) :
  StepMotor.counterclockwise_loop fuel n l k j p s
  = StepMotor.clockwise_loop fuel n l k j p s.
Proof.
  reflexivity.
Qed.

Lemma cycle_from_shift (l : list Z) (j j' : nat) (r : nat) :
  (forall i, ((j + S i) mod 4 = (j' + i) mod 4)%nat) ->
  map (fun i => nth ((j + i) mod 4) l 0) (seq 1 r)
  = map (fun i => nth ((j' + i) mod 4) l 0) (seq 0 r).
Proof.
  intros H. rewrite <- seq_shift, map_map.
  apply map_ext. intros i. now rewrite H.
Qed.

Section Loop.
Variables (m : StepMotor.t) (n : Q) (l : list Z).
Hypothesis four : List.length l = 4%nat.
Hypothesis all_wired : forall p, In p l -> wired (StepMotor.address m) p.
Hypothesis pulse_ok : (0 <= StepMotor.step_time m)%Q.

(** Invariant of the loop: entered with [step_number = k], index [j]
    and [pin = l[j]], and [r] iterations left, it runs to the end and
    activates [l[j]], [l[j+1]], ... cyclically. *)
Lemma clockwise_loop_spec (r : nat) :
  forall (fuel : nat) (k : Z) (j : nat) (tr : trace),
    (j < 4)%nat ->
    Z.of_nat r = Z.max 0 (Qceiling n - k) ->
    (r <= fuel)%nat ->
    StepMotor.clockwise_loop fuel n l k (Z.of_nat j) (nth j l 0) (m, tr)
    = (Ok tt,
       (m, tr ++ flat_map (activation m)
                   (map (fun i => nth ((j + i) mod 4) l 0) (seq 0 r)))).
Proof.
  induction r as [|r IH]; intros fuel k j tr Hj Hr Hf.
  - assert (E : (k <? Qceiling n) = false) by (apply Z.ltb_ge; lia).
    destruct fuel; cbn [StepMotor.clockwise_loop];
      rewrite loop_test, E; cbn; now rewrite app_nil_r.
  - assert (E : (k <? Qceiling n) = true) by (apply Z.ltb_lt; lia).
    destruct fuel as [|fuel]; [lia|].
    cbn [StepMotor.clockwise_loop]. rewrite loop_test, E.
    unfold bind at 1.
    rewrite step_ok;
      [|apply all_wired, nth_In; lia|exact pulse_ok].
    assert (Hr' : Z.of_nat r = Z.max 0 (Qceiling n - (k + 1))) by lia.
    assert (Hf' : (r <= fuel)%nat) by lia.
    cbn [seq map flat_map]. rewrite Nat.add_0_r, (Nat.mod_small j 4 Hj).
    rewrite app_assoc.
    destruct (Z.of_nat j + 1 <=? 3) eqn:J.
    + apply Z.leb_le in J.
      replace (Z.of_nat j + 1) with (Z.of_nat (S j)) by lia.
      unfold bind, lift_outcome. rewrite getitem_nth by lia.
      rewrite (IH fuel (k + 1) (S j)) by (assumption || lia).
      rewrite (cycle_from_shift l j (S j)); [reflexivity|].
      intros i. f_equal. lia.
    + apply Z.leb_gt in J. assert (j = 3%nat) by lia. subst j.
      unfold bind, lift_outcome.
      change 0 with (Z.of_nat 0). rewrite getitem_nth by lia.
      rewrite (IH fuel (k + 1) 0%nat) by (assumption || lia).
      rewrite (cycle_from_shift l 3 0); [reflexivity|].
      intros i. replace (3 + S i)%nat with (i + 1 * 4)%nat by lia.
      now rewrite Nat.Div0.mod_add.
Qed.

(** From the entry of either method, after [pin = l[0]]. *)
Lemma rotation_from_start (fuel : nat) (tr : trace) :
  (iterations n <= fuel)%nat ->
  StepMotor.clockwise_loop fuel n l 0 0 (nth 0 l 0) (m, tr)
  = (Ok tt, (m, tr ++ flat_map (activation m) (cycle l (iterations n)))).
Proof.
  intros Hf. unfold cycle.
  apply (clockwise_loop_spec (iterations n) fuel 0 0%nat tr);
    [lia| |exact Hf].
  unfold iterations. lia.
Qed.
End Loop.

Lemma well_formed_rev (m : StepMotor.t) :
  well_formed m ->
  List.length (rev (StepMotor.parallel_pin_set m)) = 4%nat /\
  (forall p, In p (rev (StepMotor.parallel_pin_set m)) ->
             wired (StepMotor.address m) p).
Proof.
  intros (L & W & _). split.
  - now rewrite length_rev.
  - intros p H. apply W. now apply in_rev.
Qed.

(** [clockwise(n)] on a well-formed motor. *)
Lemma clockwise_spec (m : StepMotor.t) (n : Q) (fuel : nat) (tr : trace) :
  well_formed m -> (iterations n <= fuel)%nat ->
  StepMotor.clockwise fuel n (m, tr)
  = (Ok tt,
     (m, tr ++ flat_map (activation m)
                 (cycle (rev (StepMotor.parallel_pin_set m)) (iterations n)))).
Proof.
  intros WF Hf. destruct (well_formed_rev m WF) as [L W].
  destruct WF as (_ & _ & T).
  unfold StepMotor.clockwise, bind, get_self, lift_outcome.
  change 0 with (Z.of_nat 0) at 1. rewrite getitem_nth by lia.
  now apply rotation_from_start.
Qed.

(** [counterclockwise(n)] on a well-formed motor. *)
Lemma counterclockwise_spec (m : StepMotor.t) (n : Q) (fuel : nat)
    (tr : trace) :
  well_formed m -> (iterations n <= fuel)%nat ->
  StepMotor.counterclockwise fuel n (m, tr)
  = (Ok tt,
     (m, tr ++ flat_map (activation m)
                 (cycle (StepMotor.parallel_pin_set m) (iterations n)))).
Proof.
  intros (L & W & T) Hf.
  unfold StepMotor.counterclockwise, bind, get_self, lift_outcome.
  change 0 with (Z.of_nat 0) at 1. rewrite getitem_nth by lia.
  rewrite counterclockwise_loop_eq.
  now apply rotation_from_start.
Qed.

(** ** Reading a trace back *)

Lemma decimal_tables (a p H : Z) :
  decimal a p = Some H ->
  (a = ParallelPort.addr_0x378 /\ In (p, H)
     (combine ParallelPort.pin_set_0x378 ParallelPort.dec_0x378)) \/
  (a = ParallelPort.addr_0x37f /\ In (p, H)
     (combine ParallelPort.pin_set_0x37f ParallelPort.dec_0x37f)).
Proof.
  unfold decimal.
  destruct (Z.eqb_spec a ParallelPort.addr_0x378) as [->|_].
  - intros E. left. split; [reflexivity|].
    assert (I : In p ParallelPort.pin_set_0x378)
      by (apply index_In; destruct (index _ p); [discriminate|congruence]).
    cbn in I.
    repeat (destruct I as [<-|I];
            [cbn in E; injection E as <-; cbn; tauto|]).
    destruct I.
  - destruct (Z.eqb_spec a ParallelPort.addr_0x37f) as [->|_]; [|discriminate].
    intros E. right. split; [reflexivity|].
    assert (I : In p ParallelPort.pin_set_0x37f)
      by (apply index_In; destruct (index _ p); [discriminate|congruence]).
    cbn in I.
    repeat (destruct I as [<-|I];
            [cbn in E; injection E as <-; cbn; tauto|]).
    destruct I.
Qed.

(** The port tables are one to one: the written decimal names the pin. *)
Lemma pin_of_decimal (a p H : Z) :
  decimal a p = Some H -> pin_of a H = Some p.
Proof.
  intros E. destruct (decimal_tables a p H E) as [[-> I]|[-> I]]; cbn in I;
    repeat (destruct I as [I|I]; [injection I as <- <-; reflexivity|]);
    destruct I.
Qed.

Lemma activated_app (tr1 tr2 : trace) :
  activated (tr1 ++ tr2) = activated tr1 ++ activated tr2.
Proof.
  induction tr1 as [|[a v|t] tr1 IH]; cbn; [reflexivity| |exact IH].
  destruct (pin_of a v); cbn; now rewrite IH.
Qed.

Lemma writes_app (tr1 tr2 : trace) :
  writes (tr1 ++ tr2) = (writes tr1 + writes tr2)%nat.
Proof.
  induction tr1 as [|[a v|t] tr1 IH]; cbn; now rewrite ?IH.
Qed.

Section Readback.
Variable m : StepMotor.t.

Lemma activated_activations (pins : list Z) :
  (forall p, In p pins -> wired (StepMotor.address m) p) ->
  activated (flat_map (activation m) pins) = pins.
Proof.
  induction pins as [|p pins IH]; intros W; [reflexivity|].
  cbn [flat_map]. rewrite activated_app, IH by (intros; apply W; now right).
  assert (Wp := W p (or_introl eq_refl)).
  unfold wired in Wp. unfold activation.
  destruct (decimal (StepMotor.address m) p) as [H|] eqn:E; [|congruence].
  cbn. now rewrite (pin_of_decimal _ _ _ E).
Qed.

Lemma writes_activations (pins : list Z) :
  (forall p, In p pins -> wired (StepMotor.address m) p) ->
  writes (flat_map (activation m) pins) = List.length pins.
Proof.
  induction pins as [|p pins IH]; intros W; [reflexivity|].
  cbn [flat_map]. rewrite writes_app, IH by (intros; apply W; now right).
  assert (Wp := W p (or_introl eq_refl)).
  unfold wired in Wp. unfold activation.
  destruct (decimal (StepMotor.address m) p) as [H|] eqn:E; [|congruence].
  reflexivity.
Qed.
End Readback.

(** ** Cycling through four pins *)

Lemma cycle_length (l : list Z) (n : nat) : List.length (cycle l n) = n.
Proof. unfold cycle. now rewrite length_map, length_seq. Qed.

Lemma cycle_nth (l : list Z) (n i : nat) :
  (i < n)%nat -> nth i (cycle l n) 0 = nth (i mod 4) l 0.
Proof.
  intros H. unfold cycle.
  rewrite (nth_indep _ 0 ((fun i => nth (i mod 4) l 0) O))
    by now rewrite length_map, length_seq.
  rewrite (map_nth (fun i => nth (i mod 4) l 0)), seq_nth by exact H.
  reflexivity.
Qed.

Lemma cycle_In (l : list Z) (n : nat) (p : Z) :
  List.length l = 4%nat -> In p (cycle l n) -> In p l.
Proof.
  intros L H. unfold cycle in H. apply in_map_iff in H.
  destruct H as (i & <- & _). apply nth_In. rewrite L.
  apply Nat.mod_upper_bound. discriminate.
Qed.

Lemma iterations_integer (n : Z) : iterations (inject_Z n) = Z.to_nat n.
Proof. unfold iterations. rewrite Qceiling_Z. lia. Qed.

Lemma cycle_wired (m : StepMotor.t) (n : nat) :
  well_formed m ->
  (forall p, In p (cycle (StepMotor.parallel_pin_set m) n) ->
             wired (StepMotor.address m) p) /\
  (forall p, In p (cycle (rev (StepMotor.parallel_pin_set m)) n) ->
             wired (StepMotor.address m) p).
Proof.
  intros WF. destruct (well_formed_rev m WF) as [L' W'].
  destruct WF as (L & W & _). split; intros p H.
  - apply W. exact (cycle_In _ _ _ L H).
  - apply W'. exact (cycle_In _ _ _ L' H).
Qed.

Lemma emitted_clockwise (m : StepMotor.t) (n : Q) (fuel : nat) :
  well_formed m -> (iterations n <= fuel)%nat ->
  emitted (StepMotor.clockwise fuel n) m
  = flat_map (activation m)
      (cycle (rev (StepMotor.parallel_pin_set m)) (iterations n)).
Proof.
  intros WF Hf. unfold emitted. now rewrite clockwise_spec.
Qed.

Lemma emitted_counterclockwise (m : StepMotor.t) (n : Q) (fuel : nat) :
  well_formed m -> (iterations n <= fuel)%nat ->
  emitted (StepMotor.counterclockwise fuel n) m
  = flat_map (activation m)
      (cycle (StepMotor.parallel_pin_set m) (iterations n)).
Proof.
  intros WF Hf. unfold emitted. now rewrite counterclockwise_spec.
Qed.

Lemma motor_6902_well_formed : well_formed motor_6902.
Proof.
  split; [reflexivity|]. split; [|discriminate].
  intros p H. cbn in H.
  repeat (destruct H as [<-|H]; [discriminate|]). destruct H.
Qed.

(** ** Numbers *)

Lemma Qlt_bool_inject (a b : Z) :
  Qlt_bool (inject_Z a) (inject_Z b) = (a <? b).
Proof. now rewrite loop_test, Qceiling_Z. Qed.

Lemma Qlt_bool_positive (q : Q) :
  (0 < q)%Q -> Qlt_bool 0 q = true /\ Qlt_bool q 0 = false.
Proof.
  intros H. split; [now apply Qlt_bool_iff|].
  destruct (Qlt_bool q 0) eqn:E; [|reflexivity].
  apply Qlt_bool_iff in E. exfalso.
  exact (Qlt_not_le _ _ E (Qlt_le_weak _ _ H)).
Qed.

Lemma Qlt_bool_negative (q : Q) :
  (q < 0)%Q -> Qlt_bool 0 q = false /\ Qlt_bool q 0 = true.
Proof.
  intros H. split; [|now apply Qlt_bool_iff].
  destruct (Qlt_bool 0 q) eqn:E; [|reflexivity].
  apply Qlt_bool_iff in E. exfalso.
  exact (Qlt_not_le _ _ E (Qlt_le_weak _ _ H)).
Qed.

(** The value of a finite float [(-1)^s * m * 2^e] has the sign [s]. *)
Lemma finite_value_sign (s : bool) (m : positive) (e : Z) :
  if s then (finite_value s m e < 0)%Q else (0 < finite_value s m e)%Q.
Proof.
  assert (P : forall p, 0 < 2 ^ Z.pos p)
    by (intros p; apply Z.pow_pos_nonneg; lia).
  unfold finite_value.
  destruct s, e as [|p|p]; cbv zeta; unfold Qlt;
    cbn [Qnum Qden inject_Z]; specialize (P p) || idtac; nia.
Qed.

(** The tests [x > 0] and [x < 0] on a finite number are those on its
    value. *)
Lemma value_sign (x : number) (q : Q) :
  value x = Some q ->
  gt_zero x = Qlt_bool 0 q /\ lt_zero x = Qlt_bool q 0.
Proof.
  destruct x as [z|f]; cbn [value gt_zero lt_zero].
  - intros [= <-]. change 0%Q with (inject_Z 0).
    now rewrite !Qlt_bool_inject.
  - unfold float_value. rewrite !FloatAxioms.ltb_spec.
    change (FloatOps.Prim2SF PrimFloat.zero) with (SpecFloat.S754_zero false).
    destruct (FloatOps.Prim2SF f) as [s|s| |s m e]; try discriminate.
    + intros [= <-]. now destruct s.
    + intros [= <-]. assert (V := finite_value_sign s m e).
      destruct s; cbn [SpecFloat.SFltb SpecFloat.SFcompare].
      * apply Qlt_bool_negative in V. destruct V as [V1 V2].
        now rewrite V1, V2.
      * apply Qlt_bool_positive in V. destruct V as [V1 V2].
        now rewrite V1, V2.
Qed.

Lemma loop_bound_value (fuel : nat) (x : number) (q : Q) :
  value x = Some q -> loop_bound fuel x = q.
Proof. intros H. unfold loop_bound. now rewrite H. Qed.

(** With a step factor that converts to a float, the product of any
    number with it can be computed. *)
Lemma number_mul_int (x : number) (sf : Z) (f : PrimFloat.float) :
  float_of_int sf = Ok f -> exists p, number_mul x (Int sf) = Ok p.
Proof.
  intros H. destruct x as [z|a]; cbn.
  - eexists. reflexivity.
  - rewrite H. eexists. reflexivity.
Qed.

(** ** The branches of [calibration] *)

Lemma calibration_cases (c : ThermoJarrellAsh.t) (sf : Z) (fuel : nat)
    (display_wl target_wl difference cal : number) (tr : trace) :
  ThermoJarrellAsh.step_factor c = Some sf ->
  number_sub target_wl display_wl = Ok difference ->
  number_mul difference (Int sf) = Ok cal ->
  ThermoJarrellAsh.calibration fuel display_wl target_wl (c, tr)
  = (if lt_zero cal then
       ThermoJarrellAsh.on_excitation_motor
         (StepMotor.call_rotation "anticlockwise" fuel
            (loop_bound fuel (number_abs cal))) ;;
       ThermoJarrellAsh.backlash fuel
     else if gt_zero cal then
       ThermoJarrellAsh.on_excitation_motor
         (StepMotor.call_rotation "clockwise" fuel (loop_bound fuel cal))
     else ret tt)%py (c, tr).
Proof.
  intros Hs Hd Hc.
  unfold ThermoJarrellAsh.calibration, bind at 1, lift_outcome at 1.
  rewrite Hd.
  unfold bind at 1, ThermoJarrellAsh.get_step_factor, bind at 1, get_self.
  rewrite Hs. cbn [ret].
  unfold bind at 1, lift_outcome at 1. rewrite Hc.
  destruct (lt_zero cal); [reflexivity|].
  destruct (gt_zero cal); [reflexivity|].
  now destruct (eq_zero cal).
Qed.

(** A positive product is handed to [clockwise] as it is: the loop bound
    is the exact value of the number that the multiplication gave. *)
Lemma calibration_positive_call (c : ThermoJarrellAsh.t) (sf : Z)
    (fuel : nat) (display_wl target_wl difference cal : number) (q : Q)
    (tr : trace) :
  ThermoJarrellAsh.step_factor c = Some sf ->
  number_sub target_wl display_wl = Ok difference ->
  number_mul difference (Int sf) = Ok cal ->
  value cal = Some q -> (0 < q)%Q ->
  ThermoJarrellAsh.calibration fuel display_wl target_wl (c, tr)
  = ThermoJarrellAsh.on_excitation_motor (StepMotor.clockwise fuel q) (c, tr).
Proof.
  intros Hs Hd Hc Hv Hq.
  rewrite (calibration_cases c sf fuel _ _ difference cal) by assumption.
  destruct (value_sign cal q Hv) as [G L].
  destruct (Qlt_bool_positive q Hq) as [G' L'].
  rewrite L, L', G, G', (loop_bound_value fuel cal q Hv). reflexivity.
Qed.

(** ** The pulse sequencer *)

(** C2.  On a motor with four wired winding pins [P] and for every integer
    step count [n >= 0], [clockwise(n)] returns normally after exactly [n]
    pin activations, the [i]-th of them on [reverse(P)[i mod 4]], and
    [counterclockwise(n)] after exactly [n] activations, the [i]-th on
    [P[i mod 4]]; with [n = 0] neither emits anything. *)
Theorem rotation_sequences (m : StepMotor.t) (n : Z) (fuel : nat)
    (tr : trace) :
  well_formed m -> 0 <= n -> (Z.to_nat n <= fuel)%nat ->
  let P := StepMotor.parallel_pin_set m in
  let cw := emitted (StepMotor.clockwise fuel (inject_Z n)) m in
  let ccw := emitted (StepMotor.counterclockwise fuel (inject_Z n)) m in
  StepMotor.clockwise fuel (inject_Z n) (m, tr) = (Ok tt, (m, tr ++ cw)) /\
  StepMotor.counterclockwise fuel (inject_Z n) (m, tr)
    = (Ok tt, (m, tr ++ ccw)) /\
  cw = flat_map (activation m) (activated cw) /\
  ccw = flat_map (activation m) (activated ccw) /\
  writes cw = Z.to_nat n /\ writes ccw = Z.to_nat n /\
  List.length (activated cw) = Z.to_nat n /\
  List.length (activated ccw) = Z.to_nat n /\
  (forall i, (i < Z.to_nat n)%nat ->
     nth i (activated cw) 0 = nth (i mod 4) (rev P) 0 /\
     nth i (activated ccw) 0 = nth (i mod 4) P 0) /\
  (n = 0 -> cw = [] /\ ccw = []).
Proof.
  intros WF Hn Hf P cw ccw.
  assert (Hi : (iterations (inject_Z n) <= fuel)%nat)
    by now rewrite iterations_integer.
  destruct (cycle_wired m (Z.to_nat n) WF) as [Wccw Wcw].
  assert (Ecw : cw = flat_map (activation m) (cycle (rev P) (Z.to_nat n))).
  { unfold cw. rewrite emitted_clockwise by assumption.
    now rewrite iterations_integer. }
  assert (Eccw : ccw = flat_map (activation m) (cycle P (Z.to_nat n))).
  { unfold ccw. rewrite emitted_counterclockwise by assumption.
    now rewrite iterations_integer. }
  assert (Acw : activated cw = cycle (rev P) (Z.to_nat n))
    by (rewrite Ecw; now apply activated_activations).
  assert (Accw : activated ccw = cycle P (Z.to_nat n))
    by (rewrite Eccw; now apply activated_activations).
  rewrite Acw, Accw.
  repeat split.
  - rewrite clockwise_spec by assumption.
    now rewrite Ecw, iterations_integer.
  - rewrite counterclockwise_spec by assumption.
    now rewrite Eccw, iterations_integer.
  - exact Ecw.
  - exact Eccw.
  - rewrite Ecw, writes_activations by assumption. apply cycle_length.
  - rewrite Eccw, writes_activations by assumption. apply cycle_length.
  - apply cycle_length.
  - apply cycle_length.
  - now apply cycle_nth.
  - now apply cycle_nth.
  - subst n. now rewrite Ecw.
  - subst n. now rewrite Eccw.
Qed.

Lemma rotation_sequences_witness :
  well_formed motor_6902 /\
  StepMotor.clockwise 5 (inject_Z 5) (motor_6902, [])
  = (Ok tt,
     (motor_6902,
      [Out32 888 128; Sleep (4 # 1000); Out32 888 64; Sleep (4 # 1000);
       Out32 888 32; Sleep (4 # 1000); Out32 888 16; Sleep (4 # 1000);
       Out32 888 128; Sleep (4 # 1000)])).
Proof.
  assert (WF : well_formed motor_6902).
  { split; [reflexivity|]. split; [|discriminate].
    intros p H. simpl in H.
    repeat (destruct H as [<-|H]; [discriminate|]). destruct H. }
  split; [exact WF|].
  assert (H0 : 0 <= 5) by lia.
  assert (H1 : (Z.to_nat 5 <= 5)%nat) by (vm_compute; lia).
  exact (proj1 (rotation_sequences motor_6902 5 5 [] WF H0 H1)).
Defined.



(** ** Round trips *)

Lemma skipn_length_app {A} (l l' : list A) :
  skipn (List.length l) (l ++ l') = l'.
Proof. induction l as [|x l IH]; [reflexivity|exact IH]. Qed.

Lemma halves_spec (m : StepMotor.t) (n : Z) (fuel : nat) :
  well_formed m -> (Z.to_nat n <= fuel)%nat ->
  halves m fuel n
  = (cycle (rev (StepMotor.parallel_pin_set m)) (Z.to_nat n),
     cycle (StepMotor.parallel_pin_set m) (Z.to_nat n)).
Proof.
  intros WF Hf.
  assert (Hi : (iterations (inject_Z n) <= fuel)%nat)
    by now rewrite iterations_integer.
  destruct (cycle_wired m (Z.to_nat n) WF) as [Wccw Wcw].
  unfold halves. rewrite clockwise_spec by assumption. cbn [snd].
  rewrite counterclockwise_spec by assumption. cbn [snd app].
  rewrite skipn_length_app, iterations_integer.
  now rewrite !activated_activations by assumption.
Qed.

(** Over whole periods, cycling forwards is cycling the reversed list
    backwards. *)
Lemma cycle_rev (l : list Z) (n : nat) :
  List.length l = 4%nat -> (n mod 4 = 0)%nat ->
  cycle l n = rev (cycle (rev l) n).
Proof.
  intros L Hn. apply (nth_ext _ _ 0 0).
  - now rewrite length_rev, !cycle_length.
  - rewrite cycle_length. intros i Hi.
    rewrite cycle_nth by exact Hi.
    rewrite rev_nth by now rewrite cycle_length.
    rewrite cycle_length, cycle_nth by lia.
    assert (B : ((n - S i) mod 4 < 4)%nat)
      by (apply Nat.mod_upper_bound; discriminate).
    rewrite rev_nth by now rewrite L.
    rewrite L. f_equal.
    assert (Ei := Nat.div_mod_eq i 4). assert (En := Nat.div_mod_eq n 4).
    assert (Bi : (i mod 4 < 4)%nat) by (apply Nat.mod_upper_bound; discriminate).
    rewrite Hn in En.
    replace (n - S i)%nat
      with ((3 - i mod 4) + (n / 4 - i / 4 - 1) * 4)%nat by lia.
    rewrite Nat.Div0.mod_add, (Nat.mod_small (3 - i mod 4)) by lia. lia.
Qed.

(** C4, as amended.  For a whole number of periods ([n] a multiple of 4),
    [clockwise(n)] followed by [counterclockwise(n)] visits the same pins
    in the two halves, and the second half is the first half in reverse
    order. *)
Theorem round_trip_whole_periods (m : StepMotor.t) (n : Z) (fuel : nat) :
  well_formed m -> 0 <= n -> n mod 4 = 0 -> (Z.to_nat n <= fuel)%nat ->
  round_trip m fuel n.
Proof.
  intros WF Hn H4 Hf. unfold round_trip. rewrite halves_spec by assumption.
  assert (L : List.length (StepMotor.parallel_pin_set m) = 4%nat)
    by apply WF.
  assert (E : cycle (StepMotor.parallel_pin_set m) (Z.to_nat n)
              = rev (cycle (rev (StepMotor.parallel_pin_set m)) (Z.to_nat n))).
  { apply cycle_rev; [exact L|].
    apply Nat2Z.inj. rewrite Nat2Z.inj_mod, Z2Nat.id by exact Hn.
    exact H4. }
  split; [|exact E].
  intros p. rewrite E. apply in_rev.
Qed.

Lemma round_trip_whole_periods_witness :
  well_formed motor_6902 /\ round_trip motor_6902 8 8.
Proof.
  assert (WF : well_formed motor_6902).
  { split; [reflexivity|]. split; [|discriminate].
    intros p H. simpl in H.
    repeat (destruct H as [<-|H]; [discriminate|]). destruct H. }
  split; [exact WF|].
  apply (round_trip_whole_periods motor_6902 8 8 WF);
    [lia|reflexivity|vm_compute; lia].
Defined.

(** C4 as stated fails: after [clockwise(1)] on pins [6, 7, 8, 9] the
    first half is pin 9 alone and the second half pin 6 alone. *)
Lemma round_trip_one_step_fails :
  halves motor_6902 1 1 = ([9], [6]) /\ ~ round_trip motor_6902 1 1.
Proof.
  split; [reflexivity|].
  unfold round_trip.
  change (halves motor_6902 1 1) with ([9], [6]).
  intros [_ H]. discriminate H.
Qed.

(** ** The controller *)

Lemma controller_6902_new : ThermoJarrellAsh.new 6902 = Ok controller_6902.
Proof. reflexivity. Qed.

(** A negative delta reaches [self.excitation_motor.anticlockwise], a name
    that the motor does not define. *)
Lemma calibration_negative (c : ThermoJarrellAsh.t) (sf : Z)
    (m : StepMotor.t) (fuel : nat)
    (display_wl target_wl difference cal : number) (tr : trace) :
  ThermoJarrellAsh.step_factor c = Some sf ->
  ThermoJarrellAsh.excitation_motor c = Some m ->
  number_sub target_wl display_wl = Ok difference ->
  number_mul difference (Int sf) = Ok cal ->
  lt_zero cal = true ->
  ThermoJarrellAsh.calibration fuel display_wl target_wl (c, tr)
  = (Raise (AttributeError "anticlockwise"), (c, tr)).
Proof.
  intros Hs Hm Hd Hc Hn.
  rewrite (calibration_cases c sf fuel _ _ difference cal) by assumption.
  rewrite Hn. destruct c as [sn f em]. cbn in Hs, Hm. now subst f em.
Qed.

(** A delta that is neither negative nor positive does nothing. *)
Lemma calibration_zero (c : ThermoJarrellAsh.t) (sf : Z) (fuel : nat)
    (display_wl target_wl difference cal : number) (tr : trace) :
  ThermoJarrellAsh.step_factor c = Some sf ->
  number_sub target_wl display_wl = Ok difference ->
  number_mul difference (Int sf) = Ok cal ->
  lt_zero cal = false -> gt_zero cal = false ->
  ThermoJarrellAsh.calibration fuel display_wl target_wl (c, tr)
  = (Ok tt, (c, tr)).
Proof.
  intros Hs Hd Hc Hn Hp.
  rewrite (calibration_cases c sf fuel _ _ difference cal) by assumption.
  now rewrite Hn, Hp.
Qed.

(** A positive delta turns the motor clockwise, without backlash. *)
Lemma calibration_positive (c : ThermoJarrellAsh.t) (sf : Z)
    (m : StepMotor.t) (fuel : nat)
    (display_wl target_wl difference cal : number) (q : Q) (tr : trace) :
  ThermoJarrellAsh.step_factor c = Some sf ->
  ThermoJarrellAsh.excitation_motor c = Some m ->
  well_formed m ->
  number_sub target_wl display_wl = Ok difference ->
  number_mul difference (Int sf) = Ok cal ->
  value cal = Some q -> (0 < q)%Q ->
  (iterations q <= fuel)%nat ->
  ThermoJarrellAsh.calibration fuel display_wl target_wl (c, tr)
  = (Ok tt,
     (c, tr ++ flat_map (activation m)
                 (cycle (rev (StepMotor.parallel_pin_set m))
                    (iterations q)))).
Proof.
  intros Hs Hm WF Hd Hc Hv Hq Hf.
  rewrite (calibration_positive_call c sf fuel _ _ difference cal q)
    by assumption.
  destruct c as [sn f em]. cbn in Hs, Hm. subst f em.
  unfold ThermoJarrellAsh.on_excitation_motor.
  cbn [ThermoJarrellAsh.excitation_motor].
  now rewrite clockwise_spec by assumption.
Qed.

(** [start_up] is [calibration] under another name. *)
Lemma start_up_calibration (fuel : nat) (display_wl spectral_start : number)
    (s : ThermoJarrellAsh.t * trace) :
  ThermoJarrellAsh.start_up fuel display_wl spectral_start s
  = ThermoJarrellAsh.calibration fuel display_wl spectral_start s.
Proof. reflexivity. Qed.

(** C1, at [move(100, 99)] on the device of serial number 6902.  The
    delta is -24; the call raises [AttributeError] on [anticlockwise]
    before any activation, and so does [start_up].  The other two
    branches work: [move(100, 101)] emits 24 activations and
    [move(100, 100)] none. *)
Theorem calibration_100_99 (fuel : nat) :
  ThermoJarrellAsh.calibration fuel 100 99 (controller_6902, [])
  = (Raise (AttributeError "anticlockwise"), (controller_6902, [])) /\
  ThermoJarrellAsh.start_up fuel 100 99 (controller_6902, [])
  = (Raise (AttributeError "anticlockwise"), (controller_6902, [])) /\
  writes (emitted (ThermoJarrellAsh.calibration 24 100 101) controller_6902)
  = 24%nat /\
  ThermoJarrellAsh.calibration fuel 100 100 (controller_6902, [])
  = (Ok tt, (controller_6902, [])).
Proof. repeat split. Qed.

(** C3, at the device of serial number 6902.  [backlash()] raises
    [AttributeError] on [anticlockwise] before any activation, where 240
    are expected. *)
Theorem backlash_6902 (fuel : nat) :
  ThermoJarrellAsh.backlash fuel (controller_6902, [])
  = (Raise (AttributeError "anticlockwise"), (controller_6902, [])).
Proof. reflexivity. Qed.

(** C5, at [step_backward(1)] on the device of serial number 6902.  The
    call raises [AttributeError] on [anticlockwise] before any activation;
    [step_forward(1)] emits its 24 clockwise activations and stops. *)
Theorem step_backward_1 (fuel : nat) :
  ThermoJarrellAsh.step_backward fuel 1 (controller_6902, [])
  = (Raise (AttributeError "anticlockwise"), (controller_6902, [])) /\
  ThermoJarrellAsh.step_forward 24 1 (controller_6902, [])
  = (Ok tt,
     (controller_6902,
      flat_map (activation motor_6902) (cycle [9; 8; 7; 6] 24))).
Proof. split; reflexivity. Qed.

(** The same holds on every controller that has been set up: the name
    [anticlockwise] is looked up before anything is emitted. *)
Lemma backlash_raises (c : ThermoJarrellAsh.t) (sf : Z) (m : StepMotor.t)
    (fuel : nat) (tr : trace) :
  ThermoJarrellAsh.step_factor c = Some sf ->
  ThermoJarrellAsh.excitation_motor c = Some m ->
  ThermoJarrellAsh.backlash fuel (c, tr)
  = (Raise (AttributeError "anticlockwise"), (c, tr)).
Proof.
  intros Hs Hm. destruct c as [sn f em]. cbn in Hs, Hm. now subst f em.
Qed.

Lemma step_backward_raises (c : ThermoJarrellAsh.t) (sf : Z)
    (m : StepMotor.t) (fuel : nat) (spectral_step step : number)
    (tr : trace) :
  ThermoJarrellAsh.step_factor c = Some sf ->
  ThermoJarrellAsh.excitation_motor c = Some m ->
  number_mul spectral_step (Int sf) = Ok step ->
  ThermoJarrellAsh.step_backward fuel spectral_step (c, tr)
  = (Raise (AttributeError "anticlockwise"), (c, tr)).
Proof.
  intros Hs Hm Hp. destruct c as [sn f em]. cbn in Hs, Hm. subst f em.
  cbv [ThermoJarrellAsh.step_backward bind ThermoJarrellAsh.get_step_factor
       get_self ret lift_outcome ThermoJarrellAsh.step_factor].
  now rewrite Hp.
Qed.

Lemma step_forward_spec (c : ThermoJarrellAsh.t) (sf : Z) (m : StepMotor.t)
    (fuel : nat) (spectral_step step : number) (q : Q) (tr : trace) :
  ThermoJarrellAsh.step_factor c = Some sf ->
  ThermoJarrellAsh.excitation_motor c = Some m ->
  well_formed m ->
  number_mul spectral_step (Int sf) = Ok step ->
  value step = Some q ->
  (iterations q <= fuel)%nat ->
  ThermoJarrellAsh.step_forward fuel spectral_step (c, tr)
  = (Ok tt,
     (c, tr ++ flat_map (activation m)
                 (cycle (rev (StepMotor.parallel_pin_set m))
                    (iterations q)))).
Proof.
  intros Hs Hm WF Hp Hv Hf.
  destruct c as [sn f em]. cbn in Hs, Hm. subst f em.
  cbv [ThermoJarrellAsh.step_forward bind ThermoJarrellAsh.get_step_factor
       get_self ret lift_outcome ThermoJarrellAsh.step_factor].
  rewrite Hp, (loop_bound_value fuel step q Hv).
  unfold ThermoJarrellAsh.on_excitation_motor.
  cbn [ThermoJarrellAsh.excitation_motor ThermoJarrellAsh.serial_number
       ThermoJarrellAsh.step_factor].
  change (StepMotor.call_rotation "clockwise") with StepMotor.clockwise.
  now rewrite clockwise_spec by assumption.
Qed.

(** ** Construction *)

Lemma setup_from_ok (d : ThermoJarrellAsh.device) (c : ThermoJarrellAsh.t)
    (tr : trace) :
  ThermoJarrellAsh.setup_from d (c, tr)
  = (Ok tt,
     ({| ThermoJarrellAsh.serial_number := ThermoJarrellAsh.serial_number c;
         ThermoJarrellAsh.step_factor :=
           Some (ThermoJarrellAsh.step_factor_entry d);
         ThermoJarrellAsh.excitation_motor :=
           Some {| StepMotor.address := ParallelPort.addr_0x378;
                   StepMotor.step_time := ThermoJarrellAsh.pulse_width d;
                   StepMotor.parallel_pin_set :=
                     ThermoJarrellAsh.pin_sequence d |} |}, tr)).
Proof. reflexivity. Qed.

(** No constructor checks anything.  [StepMotor(...)] returns a motor
    for every pulse width, pin set and address;
    [ThermoJarrellAsh(serial_number)] followed by [setup_step_motor()]
    returns a controller for every serial number and emits nothing.  The
    step factor is not an argument: it is the table entry 24 for serial
    number 6902 and 120 for 34575, and stays unset, with the motor, for
    every other serial number. *)
Lemma construction_never_rejects (serial_number : Z) :
  (forall step_time pins address,
     exists m, StepMotor.__init__ step_time pins address = Ok m) /\
  (forall d c tr, fst (ThermoJarrellAsh.setup_from d (c, tr)) = Ok tt) /\
  (forall c tr, exists c',
     ThermoJarrellAsh.setup_step_motor (c, tr) = (Ok tt, (c', tr))) /\
  exists c,
    ThermoJarrellAsh.new serial_number = Ok c /\
    ThermoJarrellAsh.serial_number c = serial_number /\
    ((serial_number = 6902 /\
      ThermoJarrellAsh.step_factor c = Some 24) \/
     (serial_number = 34575 /\
      ThermoJarrellAsh.step_factor c = Some 120) \/
     (serial_number <> 6902 /\ serial_number <> 34575 /\
      ThermoJarrellAsh.step_factor c = None /\
      ThermoJarrellAsh.excitation_motor c = None)).
Proof.
  split; [|split; [|split]].
  - intros step_time pins address. eexists. reflexivity.
  - intros d c tr. now rewrite setup_from_ok.
  - intros c tr.
    unfold ThermoJarrellAsh.setup_step_motor, bind, get_self.
    destruct (ThermoJarrellAsh.serial_number c =? 6902);
      [rewrite setup_from_ok; eexists; reflexivity|].
    destruct (ThermoJarrellAsh.serial_number c =? 34575);
      [rewrite setup_from_ok; eexists; reflexivity|].
    eexists. reflexivity.
  - unfold ThermoJarrellAsh.new, ThermoJarrellAsh.__init__,
      ThermoJarrellAsh.setup_step_motor, bind, get_self.
    cbn [ThermoJarrellAsh.serial_number].
    destruct (Z.eqb_spec serial_number 6902) as [E|N1].
    + rewrite setup_from_ok. eexists. split; [reflexivity|].
      split; [reflexivity|]. left. now split.
    + destruct (Z.eqb_spec serial_number 34575) as [E|N2].
      * rewrite setup_from_ok. eexists. split; [reflexivity|].
        split; [reflexivity|]. right. left. now split.
      * eexists. split; [reflexivity|]. split; [reflexivity|].
        right. right. repeat split; assumption.
Qed.

(** ** Pin checks *)

Lemma wired_port_accepts (a p : Z) :
  wired a p <->
  port_accepts a p /\
  (a = ParallelPort.addr_0x378 \/ a = ParallelPort.addr_0x37f).
Proof.
  unfold wired, port_accepts, decimal.
  destruct (Z.eqb_spec a ParallelPort.addr_0x378) as [->|N1].
  - rewrite <- index_In. split.
    + intros H. split; [|now left]. intros E. now rewrite E in H.
    + intros [H _]. destruct (index ParallelPort.pin_set_0x378 p) as [i|] eqn:E;
        [|congruence].
      assert (I : In p ParallelPort.pin_set_0x378)
        by (apply index_In; congruence).
      cbn in I.
      repeat (destruct I as [<-|I]; [cbn in E; injection E as <-; discriminate|]).
      destruct I.
  - destruct (Z.eqb_spec a ParallelPort.addr_0x37f) as [->|N2].
    + rewrite <- index_In. split.
      * intros H. split; [|now right]. intros E. now rewrite E in H.
      * intros [H _].
        destruct (index ParallelPort.pin_set_0x37f p) as [i|] eqn:E;
          [|congruence].
        assert (I : In p ParallelPort.pin_set_0x37f)
          by (apply index_In; congruence).
        cbn in I.
        repeat (destruct I as [<-|I]; [cbn in E; injection E as <-; discriminate|]).
        destruct I.
    + split; [congruence|]. intros [_ [E|E]]; congruence.
Qed.

Lemma pin_rejected {O} (address_of : O -> Z) (self : O) (tr : trace)
    (p : Z) :
  ~ port_accepts (address_of self) p ->
  ParallelPort.pin address_of p (self, tr)
  = (Raise ValueError_not_in_list, (self, tr)).
Proof.
  unfold port_accepts, ParallelPort.pin, bind, get_self, lift_outcome.
  destruct (address_of self =? ParallelPort.addr_0x378).
  - rewrite <- index_In, lookup_dec_decimal. intros N.
    destruct (index ParallelPort.pin_set_0x378 p); [|reflexivity].
    exfalso. apply N. discriminate.
  - destruct (address_of self =? ParallelPort.addr_0x37f); [|tauto].
    rewrite <- index_In, lookup_dec_decimal. intros N.
    destruct (index ParallelPort.pin_set_0x37f p); [|reflexivity].
    exfalso. apply N. discriminate.
Qed.

Lemma pin_elsewhere {O} (address_of : O -> Z) (self : O) (tr : trace)
    (p : Z) :
  address_of self <> ParallelPort.addr_0x378 ->
  address_of self <> ParallelPort.addr_0x37f ->
  ParallelPort.pin address_of p (self, tr) = (Ok tt, (self, tr)).
Proof.
  intros N1 N2. unfold ParallelPort.pin, bind, get_self.
  apply Z.eqb_neq in N1, N2. now rewrite N1, N2.
Qed.

Lemma port_accepts_dec (a p : Z) : {port_accepts a p} + {~ port_accepts a p}.
Proof.
  unfold port_accepts.
  destruct (a =? ParallelPort.addr_0x378); [apply (In_dec Z.eq_dec)|].
  destruct (a =? ParallelPort.addr_0x37f); [apply (In_dec Z.eq_dec)|].
  now left.
Qed.

Lemma step_accepted (m : StepMotor.t) (i : Z) (tr : trace) :
  (0 <= StepMotor.step_time m)%Q ->
  port_accepts (StepMotor.address m) i ->
  fst (StepMotor.step i (m, tr)) = Ok tt.
Proof.
  intros T A.
  destruct (Z.eq_dec (StepMotor.address m) ParallelPort.addr_0x378) as [E1|N1];
    [rewrite step_ok; [reflexivity| |exact T];
     apply wired_port_accepts; now auto|].
  destruct (Z.eq_dec (StepMotor.address m) ParallelPort.addr_0x37f) as [E2|N2];
    [rewrite step_ok; [reflexivity| |exact T];
     apply wired_port_accepts; now auto|].
  unfold StepMotor.step, bind at 1.
  rewrite pin_elsewhere by assumption.
  unfold bind, get_self. now rewrite sleep_ok.
Qed.

(** C7, as amended.  With a pulse width that [time.sleep] accepts, an
    activation succeeds exactly when the pin is in the table of the port
    address (2 to 9 at 0x378; 1, 14, 16, 17 at 0x37f; any pin at another
    address, where nothing is written), whether or not it is one of the
    four winding pins.  A pin outside the table raises the [ValueError]
    of [list.index] before anything is written or slept. *)
Theorem step_checks_the_port_table (m : StepMotor.t) (i : Z) (tr : trace) :
  (0 <= StepMotor.step_time m)%Q ->
  (fst (StepMotor.step i (m, tr)) = Ok tt
   <-> port_accepts (StepMotor.address m) i) /\
  (~ port_accepts (StepMotor.address m) i ->
   StepMotor.step i (m, tr) = (Raise ValueError_not_in_list, (m, tr))).
Proof.
  intros T.
  assert (R : ~ port_accepts (StepMotor.address m) i ->
              StepMotor.step i (m, tr)
              = (Raise ValueError_not_in_list, (m, tr))).
  { intros N. unfold StepMotor.step, bind. now rewrite pin_rejected. }
  split; [|exact R]. split.
  - intros H. destruct (port_accepts_dec (StepMotor.address m) i) as [A|N];
      [exact A|].
    rewrite (R N) in H. discriminate H.
  - now apply step_accepted.
Qed.

Lemma step_checks_the_port_table_witness :
  (0 <= StepMotor.step_time motor_6902)%Q /\
  (~ port_accepts (StepMotor.address motor_6902) 10 ->
   StepMotor.step 10 (motor_6902, [])
   = (Raise ValueError_not_in_list, (motor_6902, []))).
Proof.
  assert (T : (0 <= StepMotor.step_time motor_6902)%Q)
    by (vm_compute; discriminate).
  split; [exact T|].
  exact (proj2 (step_checks_the_port_table motor_6902 10 [] T)).
Defined.

(** C7 as stated fails: pin 2 is not one of the winding pins
    [6, 7, 8, 9], and activating it succeeds and drives its line. *)
Lemma step_outside_the_winding_set :
  ~ In 2 (StepMotor.parallel_pin_set motor_6902) /\
  StepMotor.step 2 (motor_6902, [])
  = (Ok tt, (motor_6902, [Out32 888 1; Sleep (4 # 1000)])).
Proof.
  split; [|reflexivity].
  cbn. intros H. repeat (destruct H as [H|H]; [discriminate H|]). exact H.
Qed.

(** ** Attributes are never assigned after set-up *)

Section Frame.
Context {O : Type}.

Lemma frame_ret {A} (a : A) : frame (@ret O A a).
Proof. intros self tr. reflexivity. Qed.

Lemma frame_raise {A} (e : exn) : frame (@raise O A e).
Proof. intros self tr. reflexivity. Qed.

Lemma frame_diverge {A} : frame (@diverge O A).
Proof. intros self tr. reflexivity. Qed.

Lemma frame_emit (e : event) : frame (@emit O e).
Proof. intros self tr. reflexivity. Qed.

Lemma frame_get_self : frame (@get_self O).
Proof. intros self tr. reflexivity. Qed.

Lemma frame_lift_outcome {A} (r : outcome A) : frame (@lift_outcome O A r).
Proof. intros self tr. reflexivity. Qed.

Lemma frame_bind {A B} (c : M O A) (k : A -> M O B) :
  frame c -> (forall a, frame (k a)) -> frame (bind c k).
Proof.
  intros Hc Hk self tr. unfold bind.
  specialize (Hc self tr).
  destruct (c (self, tr)) as [[a|e|] [self' tr']]; cbn in Hc; subst self';
    [apply Hk|reflexivity|reflexivity].
Qed.

Lemma frame_pin (address_of : O -> Z) (p : Z) :
  frame (ParallelPort.pin address_of p).
Proof.
  unfold ParallelPort.pin, ParallelPort.setpin_command.
  apply frame_bind; [apply frame_get_self|]. intros self.
  destruct (address_of self =? ParallelPort.addr_0x378);
    [apply frame_bind; [apply frame_lift_outcome|intros; apply frame_emit]|].
  destruct (address_of self =? ParallelPort.addr_0x37f);
    [apply frame_bind; [apply frame_lift_outcome|intros; apply frame_emit]|].
  apply frame_ret.
Qed.
End Frame.

Create HintDb frame.
#[local] Hint Resolve frame_ret frame_raise frame_diverge frame_emit
  frame_get_self frame_lift_outcome frame_pin : frame.

Ltac frame_step :=
  match goal with
  | |- frame (bind _ _) => apply frame_bind; [|intros]
  | |- frame (if ?b then _ else _) => destruct b
  | |- frame (match ?x with Some _ => _ | None => _ end) => destruct x
  | |- frame _ => solve [auto with frame]
  end.

Lemma frame_sleep (t : Q) : frame (StepMotor.sleep t).
Proof. unfold StepMotor.sleep. repeat frame_step. Qed.

Lemma frame_step_method (i : Z) : frame (StepMotor.step i).
Proof.
  unfold StepMotor.step.
  repeat (frame_step || apply frame_sleep).
Qed.

#[local] Hint Resolve frame_sleep frame_step_method : frame.

Lemma frame_clockwise_loop (fuel : nat) (n : Q) (l : list Z) :
  forall k j p, frame (StepMotor.clockwise_loop fuel n l k j p).
Proof.
  induction fuel as [|fuel IH]; intros k j p;
    cbn [StepMotor.clockwise_loop]; repeat frame_step; apply IH.
Qed.

Lemma frame_clockwise (fuel : nat) (n : Q) : frame (StepMotor.clockwise fuel n).
Proof.
  unfold StepMotor.clockwise. repeat frame_step. apply frame_clockwise_loop.
Qed.

Lemma frame_counterclockwise (fuel : nat) (n : Q) :
  frame (StepMotor.counterclockwise fuel n).
Proof.
  unfold StepMotor.counterclockwise. repeat frame_step.
  intros self tr. rewrite counterclockwise_loop_eq.
  apply frame_clockwise_loop.
Qed.

Lemma frame_call_rotation (name : string) (fuel : nat) (arg : Q) :
  frame (StepMotor.call_rotation name fuel arg).
Proof.
  unfold StepMotor.call_rotation, StepMotor.rotation.
  destruct (String.eqb name "clockwise"); [apply frame_clockwise|].
  destruct (String.eqb name "counterclockwise");
    [apply frame_counterclockwise|apply frame_raise].
Qed.

(** What a method does to the motor is what it does to the controller. *)
Lemma frame_on_excitation_motor {A} (method : M StepMotor.t A) :
  frame method -> frame (ThermoJarrellAsh.on_excitation_motor method).
Proof.
  intros H [sn sf [m|]] tr; [|reflexivity].
  unfold ThermoJarrellAsh.on_excitation_motor.
  cbn [ThermoJarrellAsh.excitation_motor ThermoJarrellAsh.serial_number
       ThermoJarrellAsh.step_factor].
  specialize (H m tr).
  destruct (method (m, tr)) as [r [m' tr']]. cbn in H. now subst m'.
Qed.

Lemma frame_get_step_factor : frame ThermoJarrellAsh.get_step_factor.
Proof. unfold ThermoJarrellAsh.get_step_factor. repeat frame_step. Qed.

#[local] Hint Resolve frame_call_rotation frame_on_excitation_motor
  frame_get_step_factor : frame.

Lemma frame_backlash (fuel : nat) : frame (ThermoJarrellAsh.backlash fuel).
Proof. unfold ThermoJarrellAsh.backlash. repeat frame_step. Qed.

#[local] Hint Resolve frame_backlash : frame.

Lemma frame_calibration (fuel : nat) (display_wl target_wl : number) :
  frame (ThermoJarrellAsh.calibration fuel display_wl target_wl).
Proof. unfold ThermoJarrellAsh.calibration. repeat frame_step. Qed.

Lemma frame_step_forward (fuel : nat) (spectral_step : number) :
  frame (ThermoJarrellAsh.step_forward fuel spectral_step).
Proof. unfold ThermoJarrellAsh.step_forward. repeat frame_step. Qed.

Lemma frame_step_backward (fuel : nat) (spectral_step : number) :
  frame (ThermoJarrellAsh.step_backward fuel spectral_step).
Proof. unfold ThermoJarrellAsh.step_backward. repeat frame_step. Qed.

(** C8.  Whatever the arguments, the trace before and the way the call
    ends, [step], [clockwise] and [counterclockwise] leave the motor's pin
    set, pulse width and port address as they were, and [calibration],
    [start_up], [backlash], [step_forward] and [step_backward] leave the
    controller's step factor, serial number and motor as they were. *)
Theorem attributes_are_not_mutated (fuel : nat) :
  (forall (m : StepMotor.t) (tr : trace),
     (forall i, fst (snd (StepMotor.step i (m, tr))) = m) /\
     (forall n, fst (snd (StepMotor.clockwise fuel n (m, tr))) = m) /\
     (forall n, fst (snd (StepMotor.counterclockwise fuel n (m, tr))) = m)) /\
  (forall (c : ThermoJarrellAsh.t) (tr : trace),
     (forall display_wl target_wl,
        fst (snd (ThermoJarrellAsh.calibration fuel display_wl target_wl
                    (c, tr))) = c) /\
     (forall display_wl spectral_start,
        fst (snd (ThermoJarrellAsh.start_up fuel display_wl spectral_start
                    (c, tr))) = c) /\
     fst (snd (ThermoJarrellAsh.backlash fuel (c, tr))) = c /\
     (forall spectral_step,
        fst (snd (ThermoJarrellAsh.step_forward fuel spectral_step (c, tr)))
        = c) /\
     (forall spectral_step,
        fst (snd (ThermoJarrellAsh.step_backward fuel spectral_step (c, tr)))
        = c)).
Proof.
  split; intros o tr; repeat split; intros.
  - apply frame_step_method.
  - apply frame_clockwise.
  - apply frame_counterclockwise.
  - apply frame_calibration.
  - rewrite start_up_calibration. apply frame_calibration.
  - apply frame_backlash.
  - apply frame_step_forward.
  - apply frame_step_backward.
Qed.

(** ** One data line per write *)

Lemma port_register_last (a v : Z) (tr : trace) :
  port_register a (tr ++ [Out32 a v]) = Some v.
Proof.
  induction tr as [|[a' v'|t] tr IH]; cbn.
  - now rewrite Z.eqb_refl.
  - now rewrite IH.
  - exact IH.
Qed.

(** C10.  On a port at address 0x378 and for every pin [p] from 2 to 9,
    [pin(p)] is one write of [2^(p-2)], whatever was written before: the
    port then holds that value, in which bit [p-2] is the only one set. *)
Theorem pin_drives_one_data_line (O : Type) (address_of : O -> Z)
    (self : O) (tr : trace) (p : Z) :
  address_of self = ParallelPort.addr_0x378 -> 2 <= p <= 9 ->
  ParallelPort.pin address_of p (self, tr)
  = (Ok tt, (self, tr ++ [Out32 ParallelPort.addr_0x378 (2 ^ (p - 2))])) /\
  port_register ParallelPort.addr_0x378
    (snd (snd (ParallelPort.pin address_of p (self, tr))))
  = Some (2 ^ (p - 2)) /\
  (forall k, 0 <= k -> Z.testbit (2 ^ (p - 2)) k = (k =? p - 2)).
Proof.
  intros Ha Hp.
  assert (E : ParallelPort.pin address_of p (self, tr)
              = (Ok tt, (self, tr ++ [Out32 ParallelPort.addr_0x378
                                        (2 ^ (p - 2))]))).
  { rewrite (pin_wired address_of self tr p (2 ^ (p - 2))).
    - now rewrite Ha.
    - rewrite Ha.
      assert (C : p = 2 \/ p = 3 \/ p = 4 \/ p = 5 \/ p = 6 \/ p = 7 \/
                  p = 8 \/ p = 9) by lia.
      repeat (destruct C as [->|C]; [reflexivity|]). now subst p. }
  split; [exact E|]. split.
  - rewrite E. cbn [snd]. apply port_register_last.
  - intros k Hk. rewrite Z.pow2_bits_eqb by lia. apply Z.eqb_sym.
Qed.

Lemma pin_drives_one_data_line_witness :
  ParallelPort.pin ParallelPort.address 7
    ({| ParallelPort.address := 888 |}, [Out32 888 255])
  = (Ok tt, ({| ParallelPort.address := 888 |}, [Out32 888 255; Out32 888 32])).
Proof.
  assert (Ha : ParallelPort.address {| ParallelPort.address := 888 |}
               = ParallelPort.addr_0x378) by reflexivity.
  assert (Hp : 2 <= 7 <= 9) by lia.
  exact (proj1 (pin_drives_one_data_line ParallelPort.t ParallelPort.address
                  {| ParallelPort.address := 888 |} [Out32 888 255] 7 Ha Hp)).
Defined.

(** * Further properties of the three modules *)

(** ** The loop on any pin list of four or more entries *)

Section LoopOnFour.
Variables (m : StepMotor.t) (n : Q) (l : list Z) (act : Z -> trace).
Hypothesis at_least_four : (4 <= List.length l)%nat.
Hypothesis step_act :
  forall (j : nat) (tr : trace), (j < 4)%nat ->
    StepMotor.step (nth j l 0) (m, tr) = (Ok tt, (m, tr ++ act (nth j l 0))).

Lemma loop_on_four (r : nat) :
  forall (fuel : nat) (k : Z) (j : nat) (tr : trace),
    (j < 4)%nat ->
    Z.of_nat r = Z.max 0 (Qceiling n - k) ->
    (r <= fuel)%nat ->
    StepMotor.clockwise_loop fuel n l k (Z.of_nat j) (nth j l 0) (m, tr)
    = (Ok tt,
       (m, tr ++ flat_map act
                   (map (fun i => nth ((j + i) mod 4) l 0) (seq 0 r)))).
Proof.
  induction r as [|r IH]; intros fuel k j tr Hj Hr Hf.
  - assert (E : (k <? Qceiling n) = false) by (apply Z.ltb_ge; lia).
    destruct fuel; cbn [StepMotor.clockwise_loop];
      rewrite loop_test, E; cbn; now rewrite app_nil_r.
  - assert (E : (k <? Qceiling n) = true) by (apply Z.ltb_lt; lia).
    destruct fuel as [|fuel]; [lia|].
    cbn [StepMotor.clockwise_loop]. rewrite loop_test, E.
    unfold bind at 1. rewrite step_act by exact Hj.
    assert (Hr' : Z.of_nat r = Z.max 0 (Qceiling n - (k + 1))) by lia.
    assert (Hf' : (r <= fuel)%nat) by lia.
    cbn [seq map flat_map]. rewrite Nat.add_0_r, (Nat.mod_small j 4 Hj).
    rewrite app_assoc.
    destruct (Z.of_nat j + 1 <=? 3) eqn:J.
    + apply Z.leb_le in J.
      replace (Z.of_nat j + 1) with (Z.of_nat (S j)) by lia.
      unfold bind, lift_outcome. rewrite getitem_nth by lia.
      rewrite (IH fuel (k + 1) (S j)) by (assumption || lia).
      rewrite (cycle_from_shift l j (S j)); [reflexivity|].
      intros i. f_equal. lia.
    + apply Z.leb_gt in J. assert (j = 3%nat) by lia. subst j.
      unfold bind, lift_outcome.
      change 0 with (Z.of_nat 0). rewrite getitem_nth by lia.
      rewrite (IH fuel (k + 1) 0%nat) by (assumption || lia).
      rewrite (cycle_from_shift l 3 0); [reflexivity|].
      intros i. replace (3 + S i)%nat with (i + 1 * 4)%nat by lia.
      now rewrite Nat.Div0.mod_add.
Qed.

Lemma rotation_on_four (fuel : nat) (tr : trace) :
  (iterations n <= fuel)%nat ->
  StepMotor.clockwise_loop fuel n l 0 0 (nth 0 l 0) (m, tr)
  = (Ok tt, (m, tr ++ flat_map act (cycle l (iterations n)))).
Proof.
  intros Hf. unfold cycle.
  apply (loop_on_four (iterations n) fuel 0 0%nat tr); [lia| |exact Hf].
  unfold iterations. lia.
Qed.
End LoopOnFour.

Lemma clockwise_on_four (m : StepMotor.t) (n : Q) (act : Z -> trace)
    (fuel : nat) (tr : trace) :
  (4 <= List.length (StepMotor.parallel_pin_set m))%nat ->
  (forall (j : nat) (tr : trace), (j < 4)%nat ->
     StepMotor.step (nth j (rev (StepMotor.parallel_pin_set m)) 0) (m, tr)
     = (Ok tt,
        (m, tr ++ act (nth j (rev (StepMotor.parallel_pin_set m)) 0)))) ->
  (iterations n <= fuel)%nat ->
  StepMotor.clockwise fuel n (m, tr)
  = (Ok tt,
     (m, tr ++ flat_map act
                 (cycle (rev (StepMotor.parallel_pin_set m)) (iterations n)))).
Proof.
  intros L S Hf.
  assert (L' : (4 <= List.length (rev (StepMotor.parallel_pin_set m)))%nat)
    by now rewrite length_rev.
  unfold StepMotor.clockwise, bind, get_self, lift_outcome.
  change 0 with (Z.of_nat 0) at 1. rewrite getitem_nth by lia.
  now apply rotation_on_four.
Qed.

Lemma counterclockwise_on_four (m : StepMotor.t) (n : Q) (act : Z -> trace)
    (fuel : nat) (tr : trace) :
  (4 <= List.length (StepMotor.parallel_pin_set m))%nat ->
  (forall (j : nat) (tr : trace), (j < 4)%nat ->
     StepMotor.step (nth j (StepMotor.parallel_pin_set m) 0) (m, tr)
     = (Ok tt, (m, tr ++ act (nth j (StepMotor.parallel_pin_set m) 0)))) ->
  (iterations n <= fuel)%nat ->
  StepMotor.counterclockwise fuel n (m, tr)
  = (Ok tt,
     (m, tr ++ flat_map act
                 (cycle (StepMotor.parallel_pin_set m) (iterations n)))).
Proof.
  intros L S Hf.
  unfold StepMotor.counterclockwise, bind, get_self, lift_outcome.
  change 0 with (Z.of_nat 0) at 1. rewrite getitem_nth by lia.
  rewrite counterclockwise_loop_eq.
  now apply rotation_on_four.
Qed.

Lemma cycle_firstn (l : list Z) (n : nat) (p : Z) :
  (4 <= List.length l)%nat -> In p (cycle l n) -> In p (firstn 4 l).
Proof.
  intros L H. unfold cycle in H. apply in_map_iff in H.
  destruct H as (i & <- & _).
  assert (B : (i mod 4 < 4)%nat) by (apply Nat.mod_upper_bound; discriminate).
  rewrite <- (firstn_skipn 4 l) at 1.
  rewrite app_nth1 by (rewrite length_firstn; lia).
  apply nth_In. rewrite length_firstn. lia.
Qed.

Lemma step_act_wired (m : StepMotor.t) (l : list Z) :
  (4 <= List.length l)%nat ->
  (forall p, In p l -> wired (StepMotor.address m) p) ->
  (0 <= StepMotor.step_time m)%Q ->
  forall (j : nat) (tr : trace), (j < 4)%nat ->
    StepMotor.step (nth j l 0) (m, tr)
    = (Ok tt, (m, tr ++ activation m (nth j l 0))).
Proof.
  intros L W T j tr Hj. apply step_ok; [|exact T].
  apply W, nth_In. lia.
Qed.

(** X1.  Pin lists of more than four entries: each direction uses four pins
    only.  With every listed pin wired, [clockwise] activates none but
    the last four entries of the pin set and [counterclockwise] none but
    the first four, in the same cyclic order as for a set of four. *)
Theorem only_four_pins_are_used (m : StepMotor.t) (n : Q) (fuel : nat)
    (tr : trace) :
  let P := StepMotor.parallel_pin_set m in
  (4 <= List.length P)%nat ->
  (forall p, In p P -> wired (StepMotor.address m) p) ->
  (0 <= StepMotor.step_time m)%Q ->
  (iterations n <= fuel)%nat ->
  StepMotor.clockwise fuel n (m, tr)
  = (Ok tt,
     (m, tr ++ flat_map (activation m) (cycle (rev P) (iterations n)))) /\
  StepMotor.counterclockwise fuel n (m, tr)
  = (Ok tt, (m, tr ++ flat_map (activation m) (cycle P (iterations n)))) /\
  (forall p, In p (cycle (rev P) (iterations n)) ->
             In p (skipn (List.length P - 4) P)) /\
  (forall p, In p (cycle P (iterations n)) -> In p (firstn 4 P)).
Proof.
  intros P L W T Hf.
  assert (L' : (4 <= List.length (rev P))%nat) by now rewrite length_rev.
  assert (W' : forall p, In p (rev P) -> wired (StepMotor.address m) p)
    by (intros p H; apply W; now apply in_rev).
  repeat split.
  - apply clockwise_on_four; [exact L| |exact Hf].
    now apply step_act_wired.
  - apply counterclockwise_on_four; [exact L| |exact Hf].
    now apply step_act_wired.
  - intros p H. apply (cycle_firstn _ _ _ L') in H.
    rewrite firstn_rev in H. now apply in_rev.
  - intros p H. exact (cycle_firstn _ _ _ L H).
Qed.

Lemma only_four_pins_are_used_witness :
  StepMotor.counterclockwise 6 (inject_Z 6)
    ({| StepMotor.address := 888; StepMotor.step_time := 4 # 1000;
        StepMotor.parallel_pin_set := [2; 3; 4; 5; 6; 7] |}, [])
  = (Ok tt,
     ({| StepMotor.address := 888; StepMotor.step_time := 4 # 1000;
         StepMotor.parallel_pin_set := [2; 3; 4; 5; 6; 7] |},
      [Out32 888 1; Sleep (4 # 1000); Out32 888 2; Sleep (4 # 1000);
       Out32 888 4; Sleep (4 # 1000); Out32 888 8; Sleep (4 # 1000);
       Out32 888 1; Sleep (4 # 1000); Out32 888 2; Sleep (4 # 1000)])).
Proof.
  refine (proj1 (proj2 (only_four_pins_are_used
            {| StepMotor.address := 888; StepMotor.step_time := 4 # 1000;
               StepMotor.parallel_pin_set := [2; 3; 4; 5; 6; 7] |}
            (inject_Z 6) 6 [] _ _ _ _))).
  - simpl. lia.
  - intros p H. simpl in H.
    repeat (destruct H as [<-|H]; [discriminate|]). destruct H.
  - discriminate.
  - vm_compute. lia.
Defined.

Lemma flat_map_constant {A} (x : event) (l : list A) :
  flat_map (fun _ => [x]) l = repeat x (List.length l).
Proof. induction l as [|a l IH]; cbn; [reflexivity|now rewrite IH]. Qed.

(** X2.  A motor on a port address other than 0x378 and 0x37f: no pin is
    checked and nothing is ever written; a rotation returns normally
    after sleeping one pulse width per step. *)
Theorem unknown_address_only_sleeps (m : StepMotor.t) (n : Q) (fuel : nat)
    (tr : trace) :
  StepMotor.address m <> ParallelPort.addr_0x378 ->
  StepMotor.address m <> ParallelPort.addr_0x37f ->
  (4 <= List.length (StepMotor.parallel_pin_set m))%nat ->
  (0 <= StepMotor.step_time m)%Q ->
  (iterations n <= fuel)%nat ->
  StepMotor.clockwise fuel n (m, tr)
  = (Ok tt, (m, tr ++ repeat (Sleep (StepMotor.step_time m)) (iterations n)))
  /\
  StepMotor.counterclockwise fuel n (m, tr)
  = (Ok tt, (m, tr ++ repeat (Sleep (StepMotor.step_time m)) (iterations n))).
Proof.
  intros N1 N2 L T Hf.
  assert (S : forall (p : Z) (tr : trace),
            StepMotor.step p (m, tr)
            = (Ok tt, (m, tr ++ [Sleep (StepMotor.step_time m)]))).
  { intros p tr0. unfold StepMotor.step, bind at 1.
    rewrite pin_elsewhere by assumption.
    unfold bind, get_self. now rewrite sleep_ok. }
  split.
  - rewrite (clockwise_on_four m n
               (fun _ => [Sleep (StepMotor.step_time m)]))
      by (assumption || (intros; apply S)).
    now rewrite flat_map_constant, cycle_length.
  - rewrite (counterclockwise_on_four m n
               (fun _ => [Sleep (StepMotor.step_time m)]))
      by (assumption || (intros; apply S)).
    now rewrite flat_map_constant, cycle_length.
Qed.

Lemma unknown_address_only_sleeps_witness :
  StepMotor.clockwise 2 (3 # 2)
    ({| StepMotor.address := 632; StepMotor.step_time := 1 # 100;
        StepMotor.parallel_pin_set := [40; 41; 42; 43] |}, [])
  = (Ok tt,
     ({| StepMotor.address := 632; StepMotor.step_time := 1 # 100;
         StepMotor.parallel_pin_set := [40; 41; 42; 43] |},
      [Sleep (1 # 100); Sleep (1 # 100)])).
Proof.
  refine (proj1 (unknown_address_only_sleeps
            {| StepMotor.address := 632; StepMotor.step_time := 1 # 100;
               StepMotor.parallel_pin_set := [40; 41; 42; 43] |}
            (3 # 2) 2 [] _ _ _ _ _)).
  - discriminate.
  - discriminate.
  - simpl. lia.
  - discriminate.
  - vm_compute. lia.
Defined.

(** ** Time and port state *)

Lemma slept_app (tr1 tr2 : trace) :
  (slept (tr1 ++ tr2) == slept tr1 + slept tr2)%Q.
Proof.
  induction tr1 as [|[a v|t] tr1 IH]; cbn [app slept].
  - ring.
  - exact IH.
  - rewrite IH. ring.
Qed.

Lemma slept_activations (m : StepMotor.t) (pins : list Z) :
  (forall p, In p pins -> wired (StepMotor.address m) p) ->
  (slept (flat_map (activation m) pins)
   == inject_Z (Z.of_nat (List.length pins)) * StepMotor.step_time m)%Q.
Proof.
  induction pins as [|p pins IH]; intros W.
  - cbn. ring.
  - cbn [flat_map]. rewrite slept_app, IH by (intros; apply W; now right).
    assert (Wp := W p (or_introl eq_refl)).
    unfold wired in Wp. unfold activation.
    destruct (decimal (StepMotor.address m) p) as [H|]; [|congruence].
    cbn [slept List.length]. rewrite Nat2Z.inj_succ.
    unfold Z.succ. rewrite inject_Z_plus. ring.
Qed.

(** X3.  A rotation blocks for the number of steps times the pulse width: the
    time slept in [clockwise(n)] and in [counterclockwise(n)] is
    [max(0, ceil(n)) * step_time]. *)
Theorem rotation_time (m : StepMotor.t) (n : Q) (fuel : nat) :
  well_formed m -> (iterations n <= fuel)%nat ->
  (slept (emitted (StepMotor.clockwise fuel n) m)
   == inject_Z (Z.max 0 (Qceiling n)) * StepMotor.step_time m)%Q /\
  (slept (emitted (StepMotor.counterclockwise fuel n) m)
   == inject_Z (Z.max 0 (Qceiling n)) * StepMotor.step_time m)%Q.
Proof.
  intros WF Hf.
  destruct (cycle_wired m (iterations n) WF) as [Wccw Wcw].
  assert (E : Z.of_nat (iterations n) = Z.max 0 (Qceiling n))
    by (unfold iterations; lia).
  split.
  - rewrite emitted_clockwise, slept_activations by assumption.
    now rewrite cycle_length, E.
  - rewrite emitted_counterclockwise, slept_activations by assumption.
    now rewrite cycle_length, E.
Qed.

Lemma rotation_time_witness :
  (slept (emitted (StepMotor.clockwise 3 (5 # 2)) motor_6902)
   == inject_Z 3 * (4 # 1000))%Q.
Proof.
  assert (WF : well_formed motor_6902).
  { split; [reflexivity|]. split; [|discriminate].
    intros p H. simpl in H.
    repeat (destruct H as [<-|H]; [discriminate|]). destruct H. }
  assert (Hf : (iterations (5 # 2) <= 3)%nat) by (vm_compute; lia).
  exact (proj1 (rotation_time motor_6902 (5 # 2) 3 WF Hf)).
Defined.

Lemma port_register_activation (m : StepMotor.t) (tr : trace) (p : Z) :
  wired (StepMotor.address m) p ->
  port_register (StepMotor.address m) (tr ++ activation m p)
  = decimal (StepMotor.address m) p.
Proof.
  unfold wired, activation. intros W.
  destruct (decimal (StepMotor.address m) p) as [H|]; [|congruence].
  induction tr as [|[a v|t] tr IH]; cbn.
  - now rewrite Z.eqb_refl.
  - cbn in IH. now rewrite IH.
  - exact IH.
Qed.

Lemma cycle_S (l : list Z) (k : nat) :
  cycle l (S k) = cycle l k ++ [nth (k mod 4) l 0].
Proof. unfold cycle. now rewrite seq_S, map_app. Qed.

Lemma iterations_positive (n : Q) : (0 < n)%Q -> (1 <= iterations n)%nat.
Proof.
  intros H. unfold iterations.
  assert (C : (inject_Z 0 < inject_Z (Qceiling n))%Q)
    by (eapply Qlt_le_trans; [exact H|apply Qle_ceiling]).
  rewrite <- Zlt_Qlt in C. lia.
Qed.

(** X4.  No step is ever followed by an "off" write: after a rotation of at
    least one step the port holds the decimal of the last pin activated,
    [reverse(P)[(k-1) mod 4]] for [clockwise] and [P[(k-1) mod 4]] for
    [counterclockwise], where [k = ceil(n)]; the winding of that pin stays
    driven. *)
Theorem last_winding_stays_driven (m : StepMotor.t) (n : Q) (fuel : nat)
    (tr : trace) :
  well_formed m -> (0 < n)%Q -> (iterations n <= fuel)%nat ->
  let P := StepMotor.parallel_pin_set m in
  let last_index := ((iterations n - 1) mod 4)%nat in
  port_register (StepMotor.address m)
    (snd (snd (StepMotor.clockwise fuel n (m, tr))))
  = decimal (StepMotor.address m) (nth last_index (rev P) 0) /\
  port_register (StepMotor.address m)
    (snd (snd (StepMotor.counterclockwise fuel n (m, tr))))
  = decimal (StepMotor.address m) (nth last_index P 0) /\
  decimal (StepMotor.address m) (nth last_index (rev P) 0) <> None /\
  decimal (StepMotor.address m) (nth last_index P 0) <> None.
Proof.
  intros WF Hn Hf P last_index.
  assert (K := iterations_positive n Hn).
  destruct (iterations n) as [|k] eqn:E; [lia|].
  assert (B : (k mod 4 < 4)%nat) by (apply Nat.mod_upper_bound; discriminate).
  destruct (well_formed_rev m WF) as [L' W'].
  destruct (cycle_wired m (S k) WF) as [Wccw Wcw].
  subst P last_index.
  assert (L : List.length (StepMotor.parallel_pin_set m) = 4%nat)
    by apply WF.
  assert (Wl : wired (StepMotor.address m)
                 (nth (k mod 4) (StepMotor.parallel_pin_set m) 0))
    by (apply WF, nth_In; lia).
  assert (Wr : wired (StepMotor.address m)
                 (nth (k mod 4) (rev (StepMotor.parallel_pin_set m)) 0))
    by (apply W', nth_In; lia).
  cbn [Nat.sub]. rewrite Nat.sub_0_r.
  repeat split; try assumption.
  - rewrite clockwise_spec by (rewrite ?E; assumption).
    cbn [snd]. rewrite E, cycle_S, flat_map_app. cbn [flat_map].
    rewrite app_nil_r, app_assoc. now apply port_register_activation.
  - rewrite counterclockwise_spec by (rewrite ?E; assumption).
    cbn [snd]. rewrite E, cycle_S, flat_map_app. cbn [flat_map].
    rewrite app_nil_r, app_assoc. now apply port_register_activation.
Qed.

Lemma last_winding_stays_driven_witness :
  port_register 888
    (snd (snd (StepMotor.clockwise 6 (inject_Z 6) (motor_6902, []))))
  = Some 64.
Proof.
  assert (WF : well_formed motor_6902).
  { split; [reflexivity|]. split; [|discriminate].
    intros p H. simpl in H.
    repeat (destruct H as [<-|H]; [discriminate|]). destruct H. }
  assert (Hn : (0 < inject_Z 6)%Q) by reflexivity.
  assert (Hf : (iterations (inject_Z 6) <= 6)%nat) by (vm_compute; lia).
  exact (proj1 (last_winding_stays_driven motor_6902 (inject_Z 6) 6 [] WF Hn Hf)).
Defined.

(** ** Successive rotations *)

Lemma map_seq_offset {A} (f : nat -> A) (a b : nat) :
  map f (seq a b) = map (fun i => f (a + i)%nat) (seq 0 b).
Proof.
  revert f. induction a as [|a IH]; intros f; [reflexivity|].
  rewrite <- seq_shift, map_map. apply IH.
Qed.

Lemma cycle_app (l : list Z) (a b : nat) :
  (a mod 4 = 0)%nat -> cycle l (a + b) = cycle l a ++ cycle l b.
Proof.
  intros H. unfold cycle. rewrite seq_app, map_app. f_equal.
  cbn [Nat.add]. rewrite map_seq_offset. apply map_ext. intros i.
  f_equal. rewrite Nat.Div0.add_mod, H. cbn [Nat.add].
  apply Nat.Div0.mod_mod.
Qed.

(** X5.  Each call starts again at the first pin of its sequence, so two
    rotations in the same direction add up to one exactly when the first
    ends on a whole period: for [a] a multiple of 4, [clockwise(a)] then
    [clockwise(b)] does what [clockwise(a + b)] does, and likewise
    [counterclockwise]. *)
Theorem rotations_add_up (m : StepMotor.t) (a b : Z) (fuel : nat)
    (tr : trace) :
  well_formed m -> 0 <= a -> 0 <= b -> a mod 4 = 0 ->
  (Z.to_nat (a + b) <= fuel)%nat ->
  (StepMotor.clockwise fuel (inject_Z a) ;;
   StepMotor.clockwise fuel (inject_Z b)) (m, tr)
  = StepMotor.clockwise fuel (inject_Z (a + b)) (m, tr) /\
  (StepMotor.counterclockwise fuel (inject_Z a) ;;
   StepMotor.counterclockwise fuel (inject_Z b)) (m, tr)
  = StepMotor.counterclockwise fuel (inject_Z (a + b)) (m, tr).
Proof.
  intros WF Ha Hb H4 Hf.
  assert (Fa : (iterations (inject_Z a) <= fuel)%nat)
    by (rewrite iterations_integer; lia).
  assert (Fb : (iterations (inject_Z b) <= fuel)%nat)
    by (rewrite iterations_integer; lia).
  assert (Fab : (iterations (inject_Z (a + b)) <= fuel)%nat)
    by (rewrite iterations_integer; lia).
  assert (M : (Z.to_nat a mod 4 = 0)%nat).
  { apply Nat2Z.inj. rewrite Nat2Z.inj_mod, Z2Nat.id by exact Ha. exact H4. }
  split; unfold bind.
  - rewrite !clockwise_spec by assumption.
    rewrite !iterations_integer, Z2Nat.inj_add by assumption.
    now rewrite cycle_app, flat_map_app, app_assoc by exact M.
  - rewrite !counterclockwise_spec by assumption.
    rewrite !iterations_integer, Z2Nat.inj_add by assumption.
    now rewrite cycle_app, flat_map_app, app_assoc by exact M.
Qed.

Lemma rotations_add_up_witness :
  (StepMotor.clockwise 6 (inject_Z 4) ;;
   StepMotor.clockwise 6 (inject_Z 2)) (motor_6902, [])
  = StepMotor.clockwise 6 (inject_Z (4 + 2)) (motor_6902, []).
Proof.
  assert (WF : well_formed motor_6902).
  { split; [reflexivity|]. split; [|discriminate].
    intros p H. simpl in H.
    repeat (destruct H as [<-|H]; [discriminate|]). destruct H. }
  refine (proj1 (rotations_add_up motor_6902 4 2 6 [] WF _ _ _ _)).
  - lia.
  - lia.
  - reflexivity.
  - vm_compute. lia.
Defined.

(** ** Pin sets of fewer than four pins *)

Lemma skipn_nth_cons (l : list Z) (j : nat) :
  (j < List.length l)%nat -> skipn j l = nth j l 0 :: skipn (S j) l.
Proof.
  revert j. induction l as [|x l IH]; intros j H; [cbn in H; lia|].
  destruct j as [|j]; [reflexivity|].
  cbn [skipn nth]. apply IH. cbn in H. lia.
Qed.

Section ShortLoop.
Variables (m : StepMotor.t) (n : Q) (l : list Z).
Hypothesis short : (List.length l <= 3)%nat.
Hypothesis all_wired : forall p, In p l -> wired (StepMotor.address m) p.
Hypothesis pulse_ok : (0 <= StepMotor.step_time m)%Q.

(** The index runs off the end of the list before it is wrapped. *)
Lemma short_loop (r : nat) :
  forall (fuel : nat) (k : Z) (j : nat) (tr : trace),
    (j < List.length l)%nat ->
    Z.of_nat r = Z.max 0 (Qceiling n - k) ->
    (r <= fuel)%nat ->
    StepMotor.clockwise_loop fuel n l k (Z.of_nat j) (nth j l 0) (m, tr)
    = (if (r <? List.length l - j)%nat then Ok tt else Raise IndexError,
       (m, tr ++ flat_map (activation m) (firstn r (skipn j l)))).
Proof.
  induction r as [|r IH]; intros fuel k j tr Hj Hr Hf.
  - assert (E : (k <? Qceiling n) = false) by (apply Z.ltb_ge; lia).
    assert (T : (0 <? List.length l - j)%nat = true)
      by (apply Nat.ltb_lt; lia).
    rewrite T.
    destruct fuel; cbn [StepMotor.clockwise_loop];
      rewrite loop_test, E; cbn; now rewrite app_nil_r.
  - assert (E : (k <? Qceiling n) = true) by (apply Z.ltb_lt; lia).
    destruct fuel as [|fuel]; [lia|].
    cbn [StepMotor.clockwise_loop]. rewrite loop_test, E.
    unfold bind at 1.
    rewrite step_ok; [|apply all_wired, nth_In; lia|exact pulse_ok].
    assert (J : (Z.of_nat j + 1 <=? 3) = true) by (apply Z.leb_le; lia).
    rewrite J. replace (Z.of_nat j + 1) with (Z.of_nat (S j)) by lia.
    unfold bind, lift_outcome. rewrite getitem_nat.
    rewrite (skipn_nth_cons l j Hj). cbn [firstn flat_map].
    rewrite app_assoc.
    destruct (Nat.lt_ge_cases (S j) (List.length l)) as [Lt|Ge].
    + rewrite (nth_error_nth' l 0 Lt).
      rewrite (IH fuel (k + 1) (S j)) by lia.
      replace (List.length l - S j)%nat with (List.length l - j - 1)%nat
        by lia.
      destruct (Nat.ltb_spec r (List.length l - j - 1));
        destruct (Nat.ltb_spec (S r) (List.length l - j));
        (reflexivity || lia).
    + assert (N : nth_error l (S j) = None) by now apply nth_error_None.
      rewrite N.
      assert (T : (S r <? List.length l - j)%nat = false)
        by (apply Nat.ltb_ge; lia).
      rewrite T, skipn_all2 by exact Ge.
      now rewrite firstn_nil, app_nil_r.
Qed.

Lemma short_rotation (fuel : nat) (tr : trace) :
  (iterations n <= fuel)%nat ->
  (pin <- lift_outcome (getitem l 0) ;;
   StepMotor.clockwise_loop fuel n l 0 0 pin) (m, tr)
  = (if (iterations n <? List.length l)%nat then Ok tt else Raise IndexError,
     (m, tr ++ flat_map (activation m) (firstn (iterations n) l))).
Proof.
  intros Hf. unfold bind, lift_outcome.
  destruct (Nat.eq_dec (List.length l) 0) as [E|N].
  - rewrite (proj1 (length_zero_iff_nil l) E). cbn.
    now rewrite firstn_nil, app_nil_r.
  - change 0 with (Z.of_nat 0) at 1.
    rewrite getitem_nth by lia.
    assert (H : (0 < List.length l)%nat) by lia.
    assert (R : Z.of_nat (iterations n) = Z.max 0 (Qceiling n - 0))
      by (unfold iterations; lia).
    assert (S := short_loop (iterations n) fuel 0 0%nat tr H R Hf).
    rewrite Nat.sub_0_r in S. exact S.
Qed.
End ShortLoop.

(** X6.  A pin set of fewer than four wired pins.  A rotation of fewer steps
    than there are pins returns normally; any longer one, and any
    rotation at all on an empty pin set, raises [IndexError]: the pins
    are activated once each, in the order of the direction, and the
    lookup of the next one fails, even when the step count had just been
    reached. *)
Theorem short_pin_set_runs_off_the_end (m : StepMotor.t) (n : Q)
    (fuel : nat) (tr : trace) :
  let P := StepMotor.parallel_pin_set m in
  (List.length P <= 3)%nat ->
  (forall p, In p P -> wired (StepMotor.address m) p) ->
  (0 <= StepMotor.step_time m)%Q ->
  (iterations n <= fuel)%nat ->
  StepMotor.clockwise fuel n (m, tr)
  = (if (iterations n <? List.length P)%nat then Ok tt else Raise IndexError,
     (m, tr ++ flat_map (activation m) (firstn (iterations n) (rev P)))) /\
  StepMotor.counterclockwise fuel n (m, tr)
  = (if (iterations n <? List.length P)%nat then Ok tt else Raise IndexError,
     (m, tr ++ flat_map (activation m) (firstn (iterations n) P))).
Proof.
  intros P L W T Hf. split.
  - unfold StepMotor.clockwise. unfold bind at 1. cbn [get_self].
    fold P. rewrite short_rotation; try assumption.
    + now rewrite length_rev.
    + now rewrite length_rev.
    + intros p H. apply W. now apply in_rev.
  - unfold StepMotor.counterclockwise. unfold bind at 1. cbn [get_self].
    fold P.
    change (bind (lift_outcome (getitem P 0))
              (fun pin => StepMotor.counterclockwise_loop fuel n P 0 0 pin))
      with (bind (lift_outcome (getitem P 0))
              (fun pin => StepMotor.clockwise_loop fuel n P 0 0 pin)).
    now rewrite short_rotation.
Qed.

Lemma short_pin_set_runs_off_the_end_witness :
  StepMotor.counterclockwise 3 (inject_Z 3)
    ({| StepMotor.address := 888; StepMotor.step_time := 4 # 1000;
        StepMotor.parallel_pin_set := [2; 3; 4] |}, [])
  = (Raise IndexError,
     ({| StepMotor.address := 888; StepMotor.step_time := 4 # 1000;
         StepMotor.parallel_pin_set := [2; 3; 4] |},
      [Out32 888 1; Sleep (4 # 1000); Out32 888 2; Sleep (4 # 1000);
       Out32 888 4; Sleep (4 # 1000)])).
Proof.
  refine (proj2 (short_pin_set_runs_off_the_end
            {| StepMotor.address := 888; StepMotor.step_time := 4 # 1000;
               StepMotor.parallel_pin_set := [2; 3; 4] |}
            (inject_Z 3) 3 [] _ _ _ _)).
  - simpl. lia.
  - intros p H. simpl in H.
    repeat (destruct H as [<-|H]; [discriminate|]). destruct H.
  - discriminate.
  - vm_compute. lia.
Defined.

(** ** A pin that the port table does not list *)

Section Abort.
Variables (m : StepMotor.t) (n : Q) (l : list Z).
Hypothesis four : List.length l = 4%nat.
Hypothesis pulse_ok : (0 <= StepMotor.step_time m)%Q.

Lemma loop_aborts (i : nat) :
  forall (r fuel : nat) (k : Z) (j : nat) (tr : trace),
    (j < 4)%nat ->
    Z.of_nat r = Z.max 0 (Qceiling n - k) ->
    (i < r)%nat -> (i < fuel)%nat ->
    (forall t, (t < i)%nat ->
       wired (StepMotor.address m) (nth ((j + t) mod 4) l 0)) ->
    ~ port_accepts (StepMotor.address m) (nth ((j + i) mod 4) l 0) ->
    StepMotor.clockwise_loop fuel n l k (Z.of_nat j) (nth j l 0) (m, tr)
    = (Raise ValueError_not_in_list,
       (m, tr ++ flat_map (activation m)
                   (map (fun t => nth ((j + t) mod 4) l 0) (seq 0 i)))).
Proof.
  induction i as [|i IH]; intros r fuel k j tr Hj Hr Hi Hf W B.
  - assert (E : (k <? Qceiling n) = true) by (apply Z.ltb_lt; lia).
    destruct fuel as [|fuel]; [lia|].
    cbn [StepMotor.clockwise_loop]. rewrite loop_test, E.
    rewrite Nat.add_0_r, (Nat.mod_small j 4 Hj) in B.
    unfold bind at 1, StepMotor.step, bind at 1.
    rewrite pin_rejected by exact B. cbn. now rewrite app_nil_r.
  - assert (E : (k <? Qceiling n) = true) by (apply Z.ltb_lt; lia).
    destruct fuel as [|fuel]; [lia|].
    destruct r as [|r]; [lia|].
    cbn [StepMotor.clockwise_loop]. rewrite loop_test, E.
    unfold bind at 1.
    assert (W0 := W O (Nat.lt_0_succ i)).
    rewrite Nat.add_0_r, (Nat.mod_small j 4 Hj) in W0.
    rewrite step_ok by assumption.
    cbn [seq map flat_map]. rewrite Nat.add_0_r, (Nat.mod_small j 4 Hj).
    rewrite app_assoc.
    destruct (Z.of_nat j + 1 <=? 3) eqn:J.
    + apply Z.leb_le in J.
      replace (Z.of_nat j + 1) with (Z.of_nat (S j)) by lia.
      unfold bind, lift_outcome. rewrite getitem_nth by lia.
      rewrite (IH r fuel (k + 1) (S j)); try lia.
      * rewrite (cycle_from_shift l j (S j)); [reflexivity|].
        intros t. f_equal. lia.
      * intros t Ht. replace (S j + t)%nat with (j + S t)%nat by lia.
        apply W. lia.
      * replace (S j + i)%nat with (j + S i)%nat by lia. exact B.
    + apply Z.leb_gt in J. assert (j = 3%nat) by lia. subst j.
      assert (Md : forall t, ((3 + S t) mod 4 = (0 + t) mod 4)%nat).
      { intros t. replace (3 + S t)%nat with (t + 1 * 4)%nat by lia.
        now rewrite Nat.Div0.mod_add. }
      unfold bind, lift_outcome.
      assert (G0 : getitem l 0 = Ok (nth 0 l 0))
        by (apply (getitem_nth l 0); lia).
      rewrite G0.
      rewrite (IH r fuel (k + 1) 0%nat); try lia.
      * now rewrite (cycle_from_shift l 3 0 i Md).
      * intros t Ht. rewrite <- Md. apply W. lia.
      * rewrite <- Md. exact B.
Qed.

Lemma rotation_aborts (i fuel : nat) (tr : trace) :
  (i < iterations n)%nat -> (i < fuel)%nat ->
  (forall p, In p (cycle l i) -> wired (StepMotor.address m) p) ->
  ~ port_accepts (StepMotor.address m) (nth (i mod 4) l 0) ->
  StepMotor.clockwise_loop fuel n l 0 0 (nth 0 l 0) (m, tr)
  = (Raise ValueError_not_in_list,
     (m, tr ++ flat_map (activation m) (cycle l i))).
Proof.
  intros Hi Hf W B. unfold cycle.
  apply (loop_aborts i (iterations n) fuel 0 0%nat tr);
    [lia|unfold iterations; lia|exact Hi|exact Hf| |exact B].
  intros t Ht. apply W. unfold cycle.
  apply in_map_iff. exists t. split; [reflexivity|].
  apply in_seq. lia.
Qed.
End Abort.

(** X7.  A rotation stops at the first pin of its sequence that the port
    table does not list: the pins before it are activated, then
    [list.index] raises [ValueError] and the remaining steps are not
    made. *)
Theorem rotation_stops_at_an_unlisted_pin (m : StepMotor.t) (n : Q)
    (i fuel : nat) (tr : trace) :
  let P := StepMotor.parallel_pin_set m in
  List.length P = 4%nat ->
  (0 <= StepMotor.step_time m)%Q ->
  (i < iterations n)%nat -> (i < fuel)%nat ->
  ((forall p, In p (cycle (rev P) i) -> wired (StepMotor.address m) p) ->
   ~ port_accepts (StepMotor.address m) (nth (i mod 4) (rev P) 0) ->
   StepMotor.clockwise fuel n (m, tr)
   = (Raise ValueError_not_in_list,
      (m, tr ++ flat_map (activation m) (cycle (rev P) i)))) /\
  ((forall p, In p (cycle P i) -> wired (StepMotor.address m) p) ->
   ~ port_accepts (StepMotor.address m) (nth (i mod 4) P 0) ->
   StepMotor.counterclockwise fuel n (m, tr)
   = (Raise ValueError_not_in_list,
      (m, tr ++ flat_map (activation m) (cycle P i)))).
Proof.
  intros P L T Hi Hf. split; intros W B.
  - assert (L' : List.length (rev P) = 4%nat) by now rewrite length_rev.
    unfold StepMotor.clockwise, bind, get_self, lift_outcome. fold P.
    change 0 with (Z.of_nat 0) at 1. rewrite getitem_nth by lia.
    now apply rotation_aborts.
  - unfold StepMotor.counterclockwise, bind, get_self, lift_outcome. fold P.
    change 0 with (Z.of_nat 0) at 1. rewrite getitem_nth by lia.
    rewrite counterclockwise_loop_eq.
    now apply rotation_aborts.
Qed.

Lemma rotation_stops_at_an_unlisted_pin_witness :
  StepMotor.counterclockwise 8 (inject_Z 8)
    ({| StepMotor.address := 888; StepMotor.step_time := 4 # 1000;
        StepMotor.parallel_pin_set := [6; 7; 1; 9] |}, [])
  = (Raise ValueError_not_in_list,
     ({| StepMotor.address := 888; StepMotor.step_time := 4 # 1000;
         StepMotor.parallel_pin_set := [6; 7; 1; 9] |},
      [Out32 888 16; Sleep (4 # 1000); Out32 888 32; Sleep (4 # 1000)])).
Proof.
  refine (proj2 (rotation_stops_at_an_unlisted_pin
            {| StepMotor.address := 888; StepMotor.step_time := 4 # 1000;
               StepMotor.parallel_pin_set := [6; 7; 1; 9] |}
            (inject_Z 8) 2 8 [] _ _ _ _) _ _).
  - reflexivity.
  - discriminate.
  - vm_compute. lia.
  - lia.
  - intros p H. simpl in H.
    repeat (destruct H as [<-|H]; [discriminate|]). destruct H.
  - simpl. intros H.
    repeat (destruct H as [H|H]; [discriminate H|]). exact H.
Defined.

(** ** A negative pulse width *)

Lemma step_negative_pulse (m : StepMotor.t) (tr : trace) (p H : Z) :
  decimal (StepMotor.address m) p = Some H ->
  (StepMotor.step_time m < 0)%Q ->
  StepMotor.step p (m, tr)
  = (Raise ValueError_negative_sleep,
     (m, tr ++ [Out32 (StepMotor.address m) H])).
Proof.
  intros E T. unfold StepMotor.step, bind.
  rewrite (pin_wired StepMotor.address m tr p H E).
  cbn [get_self]. unfold StepMotor.sleep.
  apply Qlt_bool_iff in T. now rewrite T.
Qed.

Lemma loop_negative_pulse (m : StepMotor.t) (n : Q) (l : list Z)
    (fuel : nat) (tr : trace) (H : Z) :
  (StepMotor.step_time m < 0)%Q ->
  decimal (StepMotor.address m) (nth 0 l 0) = Some H ->
  ((0 < n)%Q -> (1 <= fuel)%nat ->
   StepMotor.clockwise_loop fuel n l 0 0 (nth 0 l 0) (m, tr)
   = (Raise ValueError_negative_sleep,
      (m, tr ++ [Out32 (StepMotor.address m) H]))) /\
  ((n <= 0)%Q ->
   StepMotor.clockwise_loop fuel n l 0 0 (nth 0 l 0) (m, tr)
   = (Ok tt, (m, tr))).
Proof.
  intros T E. split.
  - intros Hn Hf. assert (K := iterations_positive n Hn).
    assert (C : (0 <? Qceiling n) = true)
      by (apply Z.ltb_lt; unfold iterations in K; lia).
    destruct fuel as [|fuel]; [lia|].
    cbn [StepMotor.clockwise_loop]. rewrite loop_test, C.
    unfold bind at 1. now rewrite (step_negative_pulse m tr _ H E T).
  - intros Hn.
    assert (C : (0 <? Qceiling n) = false).
    { apply Z.ltb_ge.
      assert (Qceiling n <= Qceiling 0) by now apply Qceiling_resp_le.
      assumption. }
    destruct fuel; cbn [StepMotor.clockwise_loop];
      now rewrite loop_test, C.
Qed.

(** X8.  With a negative pulse width the first step of any rotation drives
    its line and then fails in [time.sleep]: exactly one port write, no
    sleep, [ValueError]; a rotation of no steps still returns normally. *)
Theorem negative_pulse_width (m : StepMotor.t) (n : Q) (fuel : nat)
    (tr : trace) (Hcw Hccw : Z) :
  let P := StepMotor.parallel_pin_set m in
  (1 <= List.length P)%nat ->
  (StepMotor.step_time m < 0)%Q ->
  decimal (StepMotor.address m) (nth 0 (rev P) 0) = Some Hcw ->
  decimal (StepMotor.address m) (nth 0 P 0) = Some Hccw ->
  ((0 < n)%Q -> (1 <= fuel)%nat ->
   StepMotor.clockwise fuel n (m, tr)
   = (Raise ValueError_negative_sleep,
      (m, tr ++ [Out32 (StepMotor.address m) Hcw])) /\
   StepMotor.counterclockwise fuel n (m, tr)
   = (Raise ValueError_negative_sleep,
      (m, tr ++ [Out32 (StepMotor.address m) Hccw]))) /\
  ((n <= 0)%Q ->
   StepMotor.clockwise fuel n (m, tr) = (Ok tt, (m, tr)) /\
   StepMotor.counterclockwise fuel n (m, tr) = (Ok tt, (m, tr))).
Proof.
  intros P L T Ecw Eccw.
  assert (Gcw : StepMotor.clockwise fuel n (m, tr)
                = StepMotor.clockwise_loop fuel n (rev P) 0 0
                    (nth 0 (rev P) 0) (m, tr)).
  { unfold StepMotor.clockwise, bind, get_self, lift_outcome. fold P.
    assert (G0 : getitem (rev P) 0 = Ok (nth 0 (rev P) 0))
      by (apply (getitem_nth (rev P) 0); rewrite length_rev; lia).
    now rewrite G0. }
  assert (Gccw : StepMotor.counterclockwise fuel n (m, tr)
                 = StepMotor.clockwise_loop fuel n P 0 0 (nth 0 P 0) (m, tr)).
  { unfold StepMotor.counterclockwise, bind, get_self, lift_outcome. fold P.
    assert (G0 : getitem P 0 = Ok (nth 0 P 0))
      by (apply (getitem_nth P 0); lia).
    rewrite G0. apply counterclockwise_loop_eq. }
  rewrite Gcw, Gccw.
  destruct (loop_negative_pulse m n (rev P) fuel tr Hcw T Ecw) as [A1 A2].
  destruct (loop_negative_pulse m n P fuel tr Hccw T Eccw) as [B1 B2].
  split; [intros Hn Hf|intros Hn]; split; auto.
Qed.

Lemma negative_pulse_width_witness :
  StepMotor.counterclockwise 5 (inject_Z 5)
    ({| StepMotor.address := 888; StepMotor.step_time := -1 # 100;
        StepMotor.parallel_pin_set := [6; 7; 8; 9] |}, [])
  = (Raise ValueError_negative_sleep,
     ({| StepMotor.address := 888; StepMotor.step_time := -1 # 100;
         StepMotor.parallel_pin_set := [6; 7; 8; 9] |}, [Out32 888 16])).
Proof.
  refine (proj2 (proj1 (negative_pulse_width
            {| StepMotor.address := 888; StepMotor.step_time := -1 # 100;
               StepMotor.parallel_pin_set := [6; 7; 8; 9] |}
            (inject_Z 5) 5 [] 128 16 _ _ _ _) _ _)).
  - simpl. lia.
  - reflexivity.
  - reflexivity.
  - reflexivity.
  - reflexivity.
  - lia.
Defined.

(** ** The port tables *)

(** X9.  At either port address a successful [pin(p)] is one write, and the
    value written names the pin: no other pin of the table has the same
    decimal, so reading the write back gives [p]. *)
Theorem written_decimal_names_the_pin (O : Type) (address_of : O -> Z)
    (self : O) (tr : trace) (p : Z) :
  address_of self = ParallelPort.addr_0x378 \/
  address_of self = ParallelPort.addr_0x37f ->
  fst (ParallelPort.pin address_of p (self, tr)) = Ok tt ->
  exists v,
    ParallelPort.pin address_of p (self, tr)
    = (Ok tt, (self, tr ++ [Out32 (address_of self) v])) /\
    activated [Out32 (address_of self) v] = [p] /\
    (forall q, decimal (address_of self) q = Some v -> q = p).
Proof.
  intros A S.
  destruct (port_accepts_dec (address_of self) p) as [Acc|Rej];
    [|rewrite pin_rejected in S by exact Rej; discriminate S].
  assert (W : wired (address_of self) p)
    by (apply wired_port_accepts; now split).
  unfold wired in W.
  destruct (decimal (address_of self) p) as [v|] eqn:E; [|congruence].
  exists v. split; [now apply pin_wired|].
  assert (R := pin_of_decimal _ _ _ E). split.
  - cbn. now rewrite R.
  - intros q Eq. apply pin_of_decimal in Eq. congruence.
Qed.

Lemma written_decimal_names_the_pin_witness :
  exists v,
    ParallelPort.pin ParallelPort.address 16
      ({| ParallelPort.address := 895 |}, [])
    = (Ok tt, ({| ParallelPort.address := 895 |}, [] ++ [Out32 895 v])) /\
    activated [Out32 895 v] = [16] /\
    (forall q, decimal 895 q = Some v -> q = 16).
Proof.
  refine (written_decimal_names_the_pin ParallelPort.t ParallelPort.address
            {| ParallelPort.address := 895 |} [] 16 _ _).
  - right. reflexivity.
  - reflexivity.
Defined.

(** X10.  [all_pin_low] and [all_pin_high] on the data port: whatever was
    written before, the port afterwards holds 0, in which the line of no
    data pin is set, respectively 255, in which the line of every data pin
    from 2 to 9 is set and no other bit is. *)
Theorem all_data_pins_low_and_high (O : Type) (address_of : O -> Z)
    (self : O) (tr : trace) :
  address_of self = ParallelPort.addr_0x378 ->
  exists low high,
    port_register ParallelPort.addr_0x378
      (snd (snd (ParallelPort.all_pin_low address_of (self, tr)))) = Some low /\
    port_register ParallelPort.addr_0x378
      (snd (snd (ParallelPort.all_pin_high address_of (self, tr)))) = Some high /\
    fst (ParallelPort.all_pin_low address_of (self, tr)) = Ok tt /\
    fst (ParallelPort.all_pin_high address_of (self, tr)) = Ok tt /\
    (forall p H, decimal ParallelPort.addr_0x378 p = Some H ->
       Z.land low H = 0 /\ Z.land high H = H) /\
    high = fold_right Z.lor 0 ParallelPort.dec_0x378 /\
    low = 0.
Proof.
  intros A. exists 0, 255.
  unfold ParallelPort.all_pin_low, ParallelPort.all_pin_high,
    ParallelPort.setpin_command, bind, get_self, emit.
  rewrite A. cbn [Z.eqb ParallelPort.addr_0x378 Pos.eqb fst snd].
  repeat split; try apply port_register_last.
  - destruct (decimal_tables _ _ _ H0) as [[_ I]|[D _]]; [|discriminate D].
    cbn in I.
    repeat (destruct I as [I|I]; [injection I as <- <-; reflexivity|]).
    destruct I.
Qed.

Lemma all_data_pins_low_and_high_witness :
  exists low high,
    port_register 888
      (snd (snd (ParallelPort.all_pin_low StepMotor.address
                   (motor_6902, [Out32 888 64])))) = Some low /\
    port_register 888
      (snd (snd (ParallelPort.all_pin_high StepMotor.address
                   (motor_6902, [Out32 888 64])))) = Some high /\
    fst (ParallelPort.all_pin_low StepMotor.address
           (motor_6902, [Out32 888 64])) = Ok tt /\
    fst (ParallelPort.all_pin_high StepMotor.address
           (motor_6902, [Out32 888 64])) = Ok tt /\
    (forall p H, decimal 888 p = Some H ->
       Z.land low H = 0 /\ Z.land high H = H) /\
    high = fold_right Z.lor 0 ParallelPort.dec_0x378 /\
    low = 0.
Proof.
  refine (all_data_pins_low_and_high StepMotor.t StepMotor.address
            motor_6902 [Out32 888 64] _).
  reflexivity.
Defined.

(** ** The controller after set-up *)

Lemma sn_6902_well_formed :
  well_formed {| StepMotor.address := ParallelPort.addr_0x378;
                 StepMotor.step_time :=
                   ThermoJarrellAsh.pulse_width ThermoJarrellAsh.sn_6902;
                 StepMotor.parallel_pin_set :=
                   ThermoJarrellAsh.pin_sequence ThermoJarrellAsh.sn_6902 |}.
Proof. exact motor_6902_well_formed. Qed.

Lemma sn_34575_well_formed :
  well_formed {| StepMotor.address := ParallelPort.addr_0x378;
                 StepMotor.step_time :=
                   ThermoJarrellAsh.pulse_width ThermoJarrellAsh.sn_34575;
                 StepMotor.parallel_pin_set :=
                   ThermoJarrellAsh.pin_sequence ThermoJarrellAsh.sn_34575 |}.
Proof.
  split; [reflexivity|]. split; [|discriminate].
  intros p H. cbn in H.
  repeat (destruct H as [<-|H]; [discriminate|]). destruct H.
Qed.

(** X11.  Whatever the serial number and whatever the controller held before,
    [setup_step_motor] either leaves it untouched (unknown serial number)
    or gives it a positive step factor and a motor on the data port whose
    four winding pins the port table lists and whose pulse width is not
    negative; step factor and motor are assigned together. *)
Theorem setup_gives_a_well_formed_motor (c : ThermoJarrellAsh.t)
    (tr : trace) :
  exists c',
    ThermoJarrellAsh.setup_step_motor (c, tr) = (Ok tt, (c', tr)) /\
    ThermoJarrellAsh.serial_number c' = ThermoJarrellAsh.serial_number c /\
    ((ThermoJarrellAsh.serial_number c <> 6902 /\
      ThermoJarrellAsh.serial_number c <> 34575 /\ c' = c) \/
     (exists sf m,
        set_up c' sf m /\ 0 < sf /\ well_formed m /\
        StepMotor.address m = ParallelPort.addr_0x378)).
Proof.
  unfold ThermoJarrellAsh.setup_step_motor, bind, get_self.
  destruct (Z.eqb_spec (ThermoJarrellAsh.serial_number c) 6902) as [E1|N1].
  - rewrite setup_from_ok. eexists. split; [reflexivity|].
    split; [reflexivity|]. right. do 2 eexists.
    split; [split; reflexivity|].
    split; [reflexivity|]. split; [exact sn_6902_well_formed|reflexivity].
  - destruct (Z.eqb_spec (ThermoJarrellAsh.serial_number c) 34575)
      as [E2|N2].
    + rewrite setup_from_ok. eexists. split; [reflexivity|].
      split; [reflexivity|]. right. do 2 eexists.
      split; [split; reflexivity|].
      split; [reflexivity|]. split; [exact sn_34575_well_formed|reflexivity].
    + exists c. split; [reflexivity|]. split; [reflexivity|]. now left.
Qed.

(** X12.  A controller whose serial number is neither 6902 nor 34575 is
    accepted by the constructor and by [setup_step_motor], which assigns
    nothing; every operation on it then raises [AttributeError] on
    [step_factor] before anything is emitted.  In [calibration] and
    [start_up] the difference [target - display] is computed first: when
    that raises (an [int] too large for the [float] on the other side),
    its [OverflowError] comes instead. *)
Theorem unknown_serial_number (serial_number : Z) (fuel : nat)
    (tr : trace) :
  serial_number <> 6902 -> serial_number <> 34575 ->
  exists c,
    ThermoJarrellAsh.new serial_number = Ok c /\
    (forall d t,
       ThermoJarrellAsh.calibration fuel d t (c, tr)
       = (match number_sub t d with
          | Ok _ => Raise (AttributeError "step_factor")
          | Raise e => Raise e
          | Diverge => Diverge
          end, (c, tr))) /\
    (forall d t,
       ThermoJarrellAsh.start_up fuel d t (c, tr)
       = (match number_sub t d with
          | Ok _ => Raise (AttributeError "step_factor")
          | Raise e => Raise e
          | Diverge => Diverge
          end, (c, tr))) /\
    (forall a b : Z,
       ThermoJarrellAsh.calibration fuel (Int a) (Int b) (c, tr)
       = (Raise (AttributeError "step_factor"), (c, tr))) /\
    (forall a b : PrimFloat.float,
       ThermoJarrellAsh.calibration fuel (Float a) (Float b) (c, tr)
       = (Raise (AttributeError "step_factor"), (c, tr))) /\
    ThermoJarrellAsh.backlash fuel (c, tr)
    = (Raise (AttributeError "step_factor"), (c, tr)) /\
    (forall s, ThermoJarrellAsh.step_forward fuel s (c, tr)
               = (Raise (AttributeError "step_factor"), (c, tr))) /\
    (forall s, ThermoJarrellAsh.step_backward fuel s (c, tr)
               = (Raise (AttributeError "step_factor"), (c, tr))).
Proof.
  intros N1 N2.
  unfold ThermoJarrellAsh.new, ThermoJarrellAsh.__init__,
    ThermoJarrellAsh.setup_step_motor, bind, get_self.
  cbn [ThermoJarrellAsh.serial_number].
  apply Z.eqb_neq in N1, N2. rewrite N1, N2. cbn [ret].
  eexists. split; [reflexivity|].
  assert (C : forall d t,
            ThermoJarrellAsh.calibration fuel d t
              ({| ThermoJarrellAsh.serial_number := serial_number;
                  ThermoJarrellAsh.step_factor := None;
                  ThermoJarrellAsh.excitation_motor := None |}, tr)
            = (match number_sub t d with
               | Ok _ => Raise (AttributeError "step_factor")
               | Raise e => Raise e
               | Diverge => Diverge
               end,
               ({| ThermoJarrellAsh.serial_number := serial_number;
                   ThermoJarrellAsh.step_factor := None;
                   ThermoJarrellAsh.excitation_motor := None |}, tr))).
  { intros d t. unfold ThermoJarrellAsh.calibration, bind at 1,
      lift_outcome at 1.
    now destruct (number_sub t d). }
  split; [exact C|]. split; [exact C|].
  split; [intros a b; now rewrite C|].
  split; [intros a b; now rewrite C|].
  repeat split.
Qed.

Lemma unknown_serial_number_witness :
  exists c,
    ThermoJarrellAsh.new 1234 = Ok c /\
    ThermoJarrellAsh.step_forward 0 (Int 1) (c, [])
    = (Raise (AttributeError "step_factor"), (c, [])).
Proof.
  assert (N1 : 1234 <> 6902) by lia.
  assert (N2 : 1234 <> 34575) by lia.
  destruct (unknown_serial_number 1234 0 [] N1 N2)
    as (c & Hn & _ & _ & _ & _ & _ & Hf & _).
  exists c. split; [exact Hn|apply Hf].
Defined.

Lemma iterations_nonpositive (n : Q) : (n <= 0)%Q -> iterations n = O.
Proof.
  intros H. unfold iterations.
  assert (Qceiling n <= Qceiling 0) by now apply Qceiling_resp_le.
  change (Qceiling 0) with 0 in *. lia.
Qed.

(** X13.  [step_forward(s)] on a controller that is set up with a
    well-formed motor.  Let [q] be the exact value of the number that
    [s * step_factor] computes, which on a float [s] is the binary64
    product and on an [int] the integer [s * step_factor].  The call
    returns normally after [max(0, ceil(q))] clockwise activations and
    nothing else: there is no backlash, and with [q <= 0] the motor is
    not moved at all. *)
Theorem step_forward_turns_clockwise (c : ThermoJarrellAsh.t) (sf : Z)
    (m : StepMotor.t) (fuel : nat) (s step : number) (q : Q) (tr : trace) :
  set_up c sf m -> well_formed m ->
  number_mul s (Int sf) = Ok step -> value step = Some q ->
  (iterations q <= fuel)%nat ->
  let k := Z.to_nat (Z.max 0 (Qceiling q)) in
  let pins := cycle (rev (StepMotor.parallel_pin_set m)) k in
  ThermoJarrellAsh.step_forward fuel s (c, tr)
  = (Ok tt, (c, tr ++ flat_map (activation m) pins)) /\
  activated (flat_map (activation m) pins) = pins /\
  List.length pins = k /\
  ((q <= 0)%Q -> pins = []) /\
  (forall z, s = Int z -> q = inject_Z (z * sf)).
Proof.
  intros [Hs Hm] WF Hp Hv Hf k pins. fold (iterations q) in k.
  destruct (cycle_wired m k WF) as [_ Wcw].
  repeat split.
  - now apply (step_forward_spec c sf m fuel s step q).
  - now apply activated_activations.
  - apply cycle_length.
  - intros Q0. unfold pins, k. now rewrite iterations_nonpositive.
  - intros z ->. cbn in Hp. injection Hp as <-. cbn in Hv. congruence.
Qed.

Lemma step_forward_turns_clockwise_witness :
  ThermoJarrellAsh.step_forward 12 (Float float_0_1) (controller_34575, [])
  = (Ok tt,
     (controller_34575,
      flat_map (activation motor_34575) (cycle [5; 4; 2; 3] 12))).
Proof.
  assert (WF : well_formed motor_34575).
  { split; [reflexivity|]. split; [|discriminate].
    intros p H. simpl in H.
    repeat (destruct H as [<-|H]; [discriminate|]). destruct H. }
  assert (SU : set_up controller_34575 120 motor_34575)
    by (split; reflexivity).
  assert (Hp : number_mul (Float float_0_1) (Int 120)
               = Ok (Float 12%float)) by reflexivity.
  assert (Hv : value (Float 12%float)
               = Some (6755399441055744 # 562949953421312)).
  { vm_compute. reflexivity. }
  assert (Hf : (iterations (6755399441055744 # 562949953421312) <= 12)%nat)
    by (vm_compute; lia).
  exact (proj1 (step_forward_turns_clockwise controller_34575 120
                  motor_34575 12 (Float float_0_1) (Float 12%float)
                  _ [] SU WF Hp Hv Hf)).
Defined.

(** X14.  [calibration] and [start_up] on a controller that is set up with
    a well-formed motor.  Let [q] be the exact value of the number that
    [(target - display) * step_factor] computes (on floats, the binary64
    result).  With [q > 0] the call returns normally after [ceil(q)]
    clockwise activations, without backlash; with [q = 0] it emits
    nothing. *)
Theorem calibration_turns_clockwise (c : ThermoJarrellAsh.t) (sf : Z)
    (m : StepMotor.t) (fuel : nat)
    (display_wl target_wl difference cal : number) (q : Q) (tr : trace) :
  set_up c sf m -> well_formed m ->
  number_sub target_wl display_wl = Ok difference ->
  number_mul difference (Int sf) = Ok cal ->
  value cal = Some q ->
  (iterations q <= fuel)%nat ->
  let pins := cycle (rev (StepMotor.parallel_pin_set m))
                (Z.to_nat (Qceiling q)) in
  ((0 < q)%Q ->
   ThermoJarrellAsh.calibration fuel display_wl target_wl (c, tr)
   = (Ok tt, (c, tr ++ flat_map (activation m) pins)) /\
   ThermoJarrellAsh.start_up fuel display_wl target_wl (c, tr)
   = (Ok tt, (c, tr ++ flat_map (activation m) pins)) /\
   activated (flat_map (activation m) pins) = pins /\
   List.length pins = Z.to_nat (Qceiling q)) /\
  ((q == 0)%Q ->
   ThermoJarrellAsh.calibration fuel display_wl target_wl (c, tr)
   = (Ok tt, (c, tr)) /\
   ThermoJarrellAsh.start_up fuel display_wl target_wl (c, tr)
   = (Ok tt, (c, tr))).
Proof.
  intros [Hs Hm] WF Hd Hc Hv Hf pins.
  assert (K : Z.to_nat (Qceiling q) = iterations q)
    by (unfold iterations; lia).
  destruct (cycle_wired m (Z.to_nat (Qceiling q)) WF) as [_ Wcw].
  destruct (value_sign cal q Hv) as [G L].
  split.
  - intros Hq.
    assert (E : ThermoJarrellAsh.calibration fuel display_wl target_wl (c, tr)
                = (Ok tt, (c, tr ++ flat_map (activation m) pins))).
    { unfold pins. rewrite K.
      now apply (calibration_positive c sf m fuel _ _ difference cal q). }
    repeat split; try exact E.
    + now apply activated_activations.
    + apply cycle_length.
  - intros Hq.
    assert (E : ThermoJarrellAsh.calibration fuel display_wl target_wl (c, tr)
                = (Ok tt, (c, tr))).
    { apply (calibration_zero c sf fuel _ _ difference cal);
        try assumption.
      - rewrite L. destruct (Qlt_bool q 0) eqn:B; [|reflexivity].
        apply Qlt_bool_iff in B. rewrite Hq in B.
        now apply Qlt_irrefl in B.
      - rewrite G. destruct (Qlt_bool 0 q) eqn:B; [|reflexivity].
        apply Qlt_bool_iff in B. rewrite Hq in B.
        now apply Qlt_irrefl in B. }
    split; exact E.
Qed.

Lemma calibration_turns_clockwise_witness :
  ThermoJarrellAsh.calibration 250 (Float float_0_01) (Float float_2_085)
    (controller_34575, [])
  = (Ok tt,
     (controller_34575,
      flat_map (activation motor_34575) (cycle [5; 4; 2; 3] 250))).
Proof.
  assert (WF : well_formed motor_34575).
  { split; [reflexivity|]. split; [|discriminate].
    intros p H. simpl in H.
    repeat (destruct H as [<-|H]; [discriminate|]). destruct H. }
  assert (SU : set_up controller_34575 120 motor_34575)
    by (split; reflexivity).
  assert (Hd : number_sub (Float float_2_085) (Float float_0_01)
               = Ok (Float (PrimFloat.sub float_2_085 float_0_01)))
    by reflexivity.
  assert (Hc : number_mul (Float (PrimFloat.sub float_2_085 float_0_01))
                 (Int 120)
               = Ok (Float 0x1.f200000000001p+7%float)) by reflexivity.
  assert (Hv : value (Float 0x1.f200000000001p+7%float)
               = Some (8760908650119169 # 35184372088832)).
  { vm_compute. reflexivity. }
  assert (Hf : (iterations (8760908650119169 # 35184372088832) <= 250)%nat)
    by (vm_compute; lia).
  assert (Hq : (0 < 8760908650119169 # 35184372088832)%Q) by reflexivity.
  exact (proj1 (proj1 (calibration_turns_clockwise controller_34575 120
                         motor_34575 250 (Float float_0_01)
                         (Float float_2_085) _ _ _ [] SU WF Hd Hc Hv Hf)
                  Hq)).
Defined.

(** X15.  On every controller that is set up, the counterclockwise
    direction is out of reach: [backlash()], [step_backward(s)] for every
    [s] whose product with the step factor can be computed (every [s]
    when the step factor converts to a float), and [calibration] and
    [start_up] for every negative computed delta, raise [AttributeError]
    on [anticlockwise] with the controller and the port untouched. *)
Theorem anticlockwise_is_not_defined (c : ThermoJarrellAsh.t) (sf : Z)
    (m : StepMotor.t) (fuel : nat) (tr : trace) :
  set_up c sf m ->
  ThermoJarrellAsh.backlash fuel (c, tr)
  = (Raise (AttributeError "anticlockwise"), (c, tr)) /\
  (forall s step, number_mul s (Int sf) = Ok step ->
     ThermoJarrellAsh.step_backward fuel s (c, tr)
     = (Raise (AttributeError "anticlockwise"), (c, tr))) /\
  (forall f s, float_of_int sf = Ok f ->
     ThermoJarrellAsh.step_backward fuel s (c, tr)
     = (Raise (AttributeError "anticlockwise"), (c, tr))) /\
  (forall display_wl target_wl difference cal,
     number_sub target_wl display_wl = Ok difference ->
     number_mul difference (Int sf) = Ok cal ->
     lt_zero cal = true ->
     ThermoJarrellAsh.calibration fuel display_wl target_wl (c, tr)
     = (Raise (AttributeError "anticlockwise"), (c, tr)) /\
     ThermoJarrellAsh.start_up fuel display_wl target_wl (c, tr)
     = (Raise (AttributeError "anticlockwise"), (c, tr))).
Proof.
  intros [Hs Hm]. split; [now apply (backlash_raises c sf m)|].
  split; [intros s step Hp;
          now apply (step_backward_raises c sf m fuel s step)|].
  split.
  - intros f s Hf. destruct (number_mul_int s sf f Hf) as [step Hp].
    now apply (step_backward_raises c sf m fuel s step).
  - intros d t difference cal Hd Hc Hn.
    split; [|rewrite start_up_calibration];
      now apply (calibration_negative c sf m fuel d t difference cal).
Qed.

Lemma anticlockwise_is_not_defined_witness :
  ThermoJarrellAsh.backlash 0 (controller_6902, [Out32 888 16])
  = (Raise (AttributeError "anticlockwise"),
     (controller_6902, [Out32 888 16])).
Proof.
  assert (SU : set_up controller_6902 24 motor_6902)
    by (split; reflexivity).
  exact (proj1 (anticlockwise_is_not_defined controller_6902 24 motor_6902
                  0 [Out32 888 16] SU)).
Defined.

(** ** Products that are not finite *)

Section Endless.
Variables (m : StepMotor.t) (n : Q) (l : list Z).
Hypothesis four : List.length l = 4%nat.
Hypothesis all_wired : forall p, In p l -> wired (StepMotor.address m) p.
Hypothesis pulse_ok : (0 <= StepMotor.step_time m)%Q.

(** While the fuel lasts below the bound, every iteration is made. *)
Lemma loop_outlasts_the_fuel (fuel : nat) :
  forall (k : Z) (j : nat) (tr : trace),
    (j < 4)%nat ->
    k + Z.of_nat fuel < Qceiling n ->
    StepMotor.clockwise_loop fuel n l k (Z.of_nat j) (nth j l 0) (m, tr)
    = (Diverge,
       (m, tr ++ flat_map (activation m)
                   (map (fun i => nth ((j + i) mod 4) l 0) (seq 0 fuel)))).
Proof.
  induction fuel as [|fuel IH]; intros k j tr Hj Hk.
  - assert (E : (k <? Qceiling n) = true) by (apply Z.ltb_lt; lia).
    cbn [StepMotor.clockwise_loop]. rewrite loop_test, E.
    cbn. now rewrite app_nil_r.
  - assert (E : (k <? Qceiling n) = true) by (apply Z.ltb_lt; lia).
    cbn [StepMotor.clockwise_loop]. rewrite loop_test, E.
    unfold bind at 1.
    rewrite step_ok; [|apply all_wired, nth_In; lia|exact pulse_ok].
    cbn [seq map flat_map]. rewrite Nat.add_0_r, (Nat.mod_small j 4 Hj).
    rewrite app_assoc.
    destruct (Z.of_nat j + 1 <=? 3) eqn:J.
    + apply Z.leb_le in J.
      replace (Z.of_nat j + 1) with (Z.of_nat (S j)) by lia.
      unfold bind, lift_outcome. rewrite getitem_nth by lia.
      rewrite (IH (k + 1) (S j)) by lia.
      rewrite (cycle_from_shift l j (S j)); [reflexivity|].
      intros i. f_equal. lia.
    + apply Z.leb_gt in J. assert (j = 3%nat) by lia. subst j.
      assert (Md : forall t, ((3 + S t) mod 4 = (0 + t) mod 4)%nat).
      { intros t. replace (3 + S t)%nat with (t + 1 * 4)%nat by lia.
        now rewrite Nat.Div0.mod_add. }
      unfold bind, lift_outcome.
      assert (G0 : getitem l 0 = Ok (nth 0 l 0))
        by (apply (getitem_nth l 0); lia).
      rewrite G0. rewrite (IH (k + 1) 0%nat) by lia.
      now rewrite (cycle_from_shift l 3 0 fuel Md).
Qed.
End Endless.

Lemma clockwise_outlasts_the_fuel (m : StepMotor.t) (fuel : nat)
    (tr : trace) :
  well_formed m ->
  StepMotor.clockwise fuel (inject_Z (Z.of_nat fuel) + 1) (m, tr)
  = (Diverge,
     (m, tr ++ flat_map (activation m)
                 (cycle (rev (StepMotor.parallel_pin_set m)) fuel))).
Proof.
  intros WF. destruct (well_formed_rev m WF) as [L W].
  destruct WF as (_ & _ & T).
  unfold StepMotor.clockwise, bind, get_self, lift_outcome.
  assert (G0 : getitem (rev (StepMotor.parallel_pin_set m)) 0
               = Ok (nth 0 (rev (StepMotor.parallel_pin_set m)) 0))
    by (apply (getitem_nth _ 0); lia).
  rewrite G0. unfold cycle.
  apply (loop_outlasts_the_fuel m _ _ L W T fuel 0 0%nat tr); [lia|].
  unfold Qceiling, Qfloor. cbn. rewrite Z.div_1_r. lia.
Qed.

(** X17.  [step_forward(s)] when the product [s * step_factor] is not a
    finite number.  If it is [+inf] the rotation has no end: whatever the
    fuel, the run is cut off with the loop test still true, after that
    many clockwise activations.  If it is a NaN or [-inf] the loop test
    fails at once and the call returns without an activation. *)
Theorem step_forward_without_a_finite_product (c : ThermoJarrellAsh.t)
    (sf : Z) (m : StepMotor.t) (fuel : nat) (s step : number) (tr : trace) :
  set_up c sf m -> well_formed m ->
  number_mul s (Int sf) = Ok step -> value step = None ->
  (gt_zero step = true ->
   ThermoJarrellAsh.step_forward fuel s (c, tr)
   = (Diverge,
      (c, tr ++ flat_map (activation m)
                  (cycle (rev (StepMotor.parallel_pin_set m)) fuel)))) /\
  (gt_zero step = false ->
   ThermoJarrellAsh.step_forward fuel s (c, tr) = (Ok tt, (c, tr))).
Proof.
  intros [Hs Hm] WF Hp Hv.
  destruct c as [sn f em]. cbn in Hs, Hm. subst f em.
  cbv [ThermoJarrellAsh.step_forward bind ThermoJarrellAsh.get_step_factor
       get_self ret lift_outcome ThermoJarrellAsh.step_factor].
  rewrite Hp. unfold loop_bound. rewrite Hv.
  unfold ThermoJarrellAsh.on_excitation_motor.
  cbn [ThermoJarrellAsh.excitation_motor ThermoJarrellAsh.serial_number
       ThermoJarrellAsh.step_factor].
  change (StepMotor.call_rotation "clockwise") with StepMotor.clockwise.
  split; intros G; rewrite G.
  - now rewrite clockwise_outlasts_the_fuel.
  - rewrite clockwise_spec by (assumption || (vm_compute; lia)).
    cbn. now rewrite app_nil_r.
Qed.

Lemma step_forward_without_a_finite_product_witness :
  ThermoJarrellAsh.step_forward 3 (Float infinity) (controller_6902, [])
  = (Diverge,
     (controller_6902,
      flat_map (activation motor_6902) (cycle [9; 8; 7; 6] 3))).
Proof.
  assert (WF : well_formed motor_6902).
  { split; [reflexivity|]. split; [|discriminate].
    intros p H. simpl in H.
    repeat (destruct H as [<-|H]; [discriminate|]). destruct H. }
  assert (SU : set_up controller_6902 24 motor_6902)
    by (split; reflexivity).
  assert (Hp : number_mul (Float infinity) (Int 24) = Ok (Float infinity))
    by reflexivity.
  assert (Hv : value (Float infinity) = None) by reflexivity.
  assert (G : gt_zero (Float infinity) = true) by reflexivity.
  exact (proj1 (step_forward_without_a_finite_product controller_6902 24
                  motor_6902 3 (Float infinity) (Float infinity) []
                  SU WF Hp Hv) G).
Defined.

(** ** Both directions reach every winding *)

Lemma cycle_covers (l : list Z) (n : nat) (p : Z) :
  List.length l = 4%nat -> (4 <= n)%nat -> In p (cycle l n) <-> In p l.
Proof.
  intros L Hn. split; [now apply cycle_In|].
  intros H. destruct (In_nth l p 0 H) as (i & Hi & <-).
  unfold cycle. apply in_map_iff. exists i. split.
  - rewrite Nat.mod_small by lia. reflexivity.
  - apply in_seq. lia.
Qed.

(** X16.  From four steps on, [clockwise(n)] followed by [counterclockwise(n)]
    activates in each half every pin of the pin set and no other,
    whether or not [n] is a whole number of periods. *)
Theorem both_halves_visit_every_pin (m : StepMotor.t) (n : Z) (fuel : nat) :
  well_formed m -> 4 <= n -> (Z.to_nat n <= fuel)%nat ->
  forall p,
    (In p (fst (halves m fuel n)) <-> In p (StepMotor.parallel_pin_set m)) /\
    (In p (snd (halves m fuel n)) <-> In p (StepMotor.parallel_pin_set m)).
Proof.
  intros WF Hn Hf p. rewrite halves_spec by assumption. cbn [fst snd].
  assert (L : List.length (StepMotor.parallel_pin_set m) = 4%nat)
    by apply WF.
  split.
  - rewrite cycle_covers by (rewrite ?length_rev; lia || exact L).
    symmetry. apply in_rev.
  - apply cycle_covers; [exact L|lia].
Qed.

Lemma both_halves_visit_every_pin_witness :
  halves motor_6902 5 5 = ([9; 8; 7; 6; 9], [6; 7; 8; 9; 6]) /\
  (In 7 (fst (halves motor_6902 5 5))
   <-> In 7 (StepMotor.parallel_pin_set motor_6902)).
Proof.
  assert (WF : well_formed motor_6902).
  { split; [reflexivity|]. split; [|discriminate].
    intros p H. simpl in H.
    repeat (destruct H as [<-|H]; [discriminate|]). destruct H. }
  split; [reflexivity|].
  assert (H4 : 4 <= 5) by lia.
  assert (Hf : (Z.to_nat 5 <= 5)%nat) by (vm_compute; lia).
  exact (proj1 (both_halves_visit_every_pin motor_6902 5 5 WF H4 Hf 7)).
Defined.
